(** * Inventory data store: attribute merge engine, list queries, group operations

  A shallow embedding of [store/mongo/datastore_mongo.go].  The Go
  functions are translated one by one (module [DataStoreMongo]); the
  document store they talk to is modelled by the fragment of its query
  and update language those functions use (module [Mongo]). *)

From Stdlib Require Import ZArith Lia List Ascii Sorting.Permutation.
From stdpp Require Import base decidable option list strings gmap.

Local Open Scope string_scope.
Local Open Scope Z_scope.
#[local] Set Warnings "-clear-no-such-hyp".

(** ** The model package: identifiers, attributes, values *)

Module model.

Definition DeviceID := string.
Definition GroupName := string.

(** [NilDeviceID] is the empty identifier. *)
Definition NilDeviceID : DeviceID := EmptyString.

(** Attribute values are dynamically typed ([interface{}] in the source).
    The embedding keeps the scalar fragment: strings, numbers (float64 in
    the source; here they are only compared, never computed with),
    booleans and time stamps.  A nil value is [None] at the use site. *)
Inductive Value :=
| VString (s : string)
| VNumber (n : Z)
| VBool (b : bool)
| VTime (t : Z).

#[global] Instance Value_eq_dec : EqDecision Value.
Proof. solve_decision. Defined.

(** Modelled from the spec: the reserved scopes and names of the model
    package (the constants [AttrScopeInventory], [AttrScopeSystem],
    [AttrNameGroup], [AttrNameUpdated], [AttrNameCreated]), which the
    data store only refers to by name. *)
Definition AttrScopeInventory : string := "inventory".
Definition AttrScopeSystem : string := "system".
Definition AttrNameGroup : string := "group".
Definition AttrNameUpdated : string := "updated".
Definition AttrNameCreated : string := "created".

(** Modelled from the spec: [DeviceAttribute], a submitted attribute with
    its optional value ([AValue] is the field [Value]; nil is [None]) and
    optional description. *)
Record DeviceAttribute := mkAttr {
  Scope : string;
  Name : string;
  AValue : option Value;
  Description : option string;
}.

Definition DeviceAttributes := list DeviceAttribute.

(** Modelled from the spec: [Device] as it is handed to device creation,
    with its identifier, submitted attributes and optional group. *)
Record Device := mkDevice {
  ID : DeviceID;
  Attributes : DeviceAttributes;
  Group : GroupName;
}.

End model.
Export model.

(** ** The store package: list queries and error values *)

Module store.

(** Modelled from the spec: [ComparisonOperator], of which the data store
    names the one constant [Eq]; every other operator value is unnamed. *)
Definition ComparisonOperator := Z.
Definition Eq : ComparisonOperator := 1.

(** Modelled from the spec: [Filter{scope, name, operator, value}], with
    the fields the data store reads.  [FValue] is the field [Value] (the
    string form), [ValueFloat] the optional parsed-number form. *)
Record Filter := mkFilter {
  AttrScope : string;
  AttrName : string;
  FValue : string;
  ValueFloat : option Z;
  Operator : ComparisonOperator;
}.

(** Modelled from the spec: [Sort{scope, name, ascending}]; the fields are
    [AttrScope], [AttrName] and [Ascending] in the source. *)
Record Sort := mkSort {
  SortAttrScope : string;
  SortAttrName : string;
  Ascending : bool;
}.

(** Modelled from the spec: [ListQuery]; [QSort] and [QGroupName] are the
    fields [Sort] and [GroupName], [HasGroup] is the tri-state (a nil
    pointer is [None]). *)
Record ListQuery := mkListQuery {
  Skip : Z;
  Limit : Z;
  Filters : list Filter;
  QSort : option Sort;
  HasGroup : option bool;
  QGroupName : string;
}.

(** The error values of the store package, errors of the backend, and
    [errors.Wrap]. *)
Inductive Error :=
| ErrNoAttrName
| ErrDevNotFound
| ErrGroupNotFound
| ErrBackend (msg : string)
| Wrap (e : Error) (msg : string).

#[global] Instance Error_eq_dec : EqDecision Error.
Proof. solve_decision. Defined.

End store.
Export store.

(** ** Field names of the persisted layout (the [const] block) *)

Definition DbDevId : string := "_id".
Definition DbDevAttributes : string := "attributes".
Definition DbDevGroup : string := "group".
Definition DbDevAttributesDesc : string := "description".
Definition DbDevAttributesValue : string := "value".
Definition DbDevAttributesScope : string := "scope".
Definition DbDevAttributesName : string := "name".

(** A dotted field path, kept as the list of its components:
  ["attributes.system-group.value"] is
  [["attributes"; "system-group"; "value"]]. *)
Abbreviation Path := (list string).

Definition DbDevAttributesGroup : Path :=
[DbDevAttributes; AttrScopeSystem +:+ "-" +:+ AttrNameGroup].
Definition DbDevAttributesGroupValue : Path :=
DbDevAttributesGroup ++ [DbDevAttributesValue].

(** ** The document store *)

Module Mongo.

(** *** Documents *)

(** One stored attribute: the sub-document [{scope, name, value?,
    description?}] held under the key ["scope-name"]. *)
Record AttrDoc := mkAttrDoc {
  ad_scope : option Value;
  ad_name : option Value;
  ad_value : option Value;
  ad_description : option Value;
}.

#[global] Instance AttrDoc_eq_dec : EqDecision AttrDoc.
Proof. solve_decision. Defined.

Definition empty_attr : AttrDoc := mkAttrDoc None None None None.

(** One record per device, keyed by [_id], with its [attributes] object. *)
Record Document := mkDocument {
  doc_id : DeviceID;
  doc_attributes : gmap string AttrDoc;
}.

#[global] Instance Document_eq_dec : EqDecision Document.
Proof. solve_decision. Defined.

(** A collection lists its documents in natural (insertion) order. *)
Abbreviation Collection := (list Document).

(** What a field path of a document holds: a scalar or an attribute
    sub-document. *)
Inductive BVal :=
| BV (v : Value)
| BAttr (a : AttrDoc).

#[global] Instance BVal_eq_dec : EqDecision BVal.
Proof. solve_decision. Defined.

(** [bson.M]: an unordered map from field names to values. *)
Abbreviation bsonM := (gmap Path BVal).

Definition attr_field (a : AttrDoc) (f : string) : option Value :=
  if decide (f = DbDevAttributesScope) then ad_scope a
  else if decide (f = DbDevAttributesName) then ad_name a
  else if decide (f = DbDevAttributesValue) then ad_value a
  else if decide (f = DbDevAttributesDesc) then ad_description a
  else None.

Definition lookup_path (d : Document) (p : Path) : option BVal :=
  match p with
  | [root; k] =>
      if decide (root = DbDevAttributes)
      then BAttr <$> doc_attributes d !! k else None
  | [root; k; f] =>
      if decide (root = DbDevAttributes)
      then a ← doc_attributes d !! k; BV <$> attr_field a f else None
  | _ => None
  end.

(** *** Query documents *)

Inductive Cond :=
| CLit (v : Value)                (* field: v *)
| COp (op : string) (v : Value)   (* field: {op: v} *)
| CExists (b : bool).             (* field: {"$exists": b} *)

#[warnings="-register-all"] Inductive Query :=
| QDoc (fields : list Query)      (* a document of several keys; bson.M{} is QDoc [] *)
| QId (id : DeviceID)             (* "_id": id *)
| QField (p : Path) (c : Cond)
| QAnd (qs : list Query)          (* "$and": [...] *)
| QOr (qs : list Query).          (* "$or": [...] *)

(** [{field: {"$eq": v}}] and [{field: v}] hold when the field is present
    with value [v].  An operator document whose key does not start with
    [$] (the empty key) is a literal sub-document; no scalar equals it. *)
Definition eval_cond (x : option BVal) (c : Cond) : bool :=
  match c with
  | CLit v => bool_decide (x = Some (BV v))
  | COp op v => bool_decide (op = "$eq") && bool_decide (x = Some (BV v))
  | CExists b => Bool.eqb (bool_decide (is_Some x)) b
  end%bool.

Fixpoint matches (d : Document) (q : Query) : bool :=
  match q with
  | QDoc qs => forallb (matches d) qs
  | QId id => bool_decide (doc_id d = id)
  | QField p c => eval_cond (lookup_path d p) c
  | QAnd qs => forallb (matches d) qs
  | QOr qs => existsb (matches d) qs
  end.

(** The [_id] an upsert gives the inserted document: the equality on
    [_id] in the query. *)
Fixpoint query_id (q : Query) : option DeviceID :=
  match q with
  | QId id => Some id
  | QDoc (q' :: _) => query_id q'
  | _ => None
  end.

(** *** The backend *)

Inductive Backend :=
| Healthy
| Unavailable (e : Error)   (* every request fails with [e] *)
| Undecodable (e : Error).  (* reads succeed, decoding the result fails *)

Definition request_error (b : Backend) : option Error :=
  match b with Unavailable e => Some e | _ => None end.

Definition decode {A} (b : Backend) (a : A) : Error + A :=
  match b with Undecodable e => inl e | _ => inr a end.

(** *** Update documents *)

(** The update operators the data store uses: [$set], [$setOnInsert] and
    [$unset]. *)
Record Update := mkUpdate {
  op_set : bsonM;
  op_setOnInsert : bsonM;
  op_unset : gset Path;
}.

Record UpdateResult := mkUpdateResult {
  MatchedCount : Z;
  ModifiedCount : Z;
  UpsertedCount : Z;
}.

(** The store refuses an update that writes a path and, in the same
    request, a path below it (or the same path under two operators). *)
Definition update_paths (u : Update) : gset Path :=
  dom (op_set u) ∪ dom (op_setOnInsert u) ∪ op_unset u.

Definition conflicting (u : Update) : Prop :=
  set_Exists (λ p, set_Exists (λ q, p ≠ q ∧ p `prefix_of` q) (update_paths u))
             (update_paths u)
  ∨ dom (op_set u) ∩ dom (op_setOnInsert u) ≠ ∅
  ∨ (dom (op_set u) ∪ dom (op_setOnInsert u)) ∩ op_unset u ≠ ∅.

#[global] Instance conflicting_dec u : Decision (conflicting u).
Proof. unfold conflicting. apply _. Defined.

(** An update document that only writes fields of attributes, never a
    whole attribute. *)
Definition field_only (upd : bsonM) : Prop :=
  ∀ p, is_Some (upd !! p) → ∃ k f, p = [DbDevAttributes; k; f].

(** The attribute a path addresses: the second component below
    [attributes]. *)
Definition attr_of_path (p : Path) : option string :=
  match p with
  | root :: k :: _ => if decide (root = DbDevAttributes) then Some k else None
  | _ => None
  end.

Definition touched (upd : bsonM) : gset string :=
  set_omap attr_of_path (dom upd).

Definition set_field (upd : bsonM) (k f : string) (old : option Value)
  : option Value :=
  match upd !! [DbDevAttributes; k; f] with
  | Some (BV v) => Some v
  | _ => old
  end.

(** [$set] on one attribute: a write of the whole attribute replaces it, a
    write of one of its fields leaves the other fields as they are. *)
Definition set_attr (upd : bsonM) (k : string) (old : AttrDoc) : AttrDoc :=
  match upd !! [DbDevAttributes; k] with
  | Some (BAttr a) => a
  | _ =>
      {| ad_scope := set_field upd k DbDevAttributesScope (ad_scope old);
         ad_name := set_field upd k DbDevAttributesName (ad_name old);
         ad_value := set_field upd k DbDevAttributesValue (ad_value old);
         ad_description :=
           set_field upd k DbDevAttributesDesc (ad_description old) |}
  end.

(** [$set] on the attribute object: every attribute already stored or
    addressed by the update is rewritten by [set_attr]; an attribute that
    did not exist starts from the empty sub-document. *)
Definition apply_set (upd : bsonM) (m : gmap string AttrDoc)
  : gmap string AttrDoc :=
  map_imap (λ k _, Some (set_attr upd k (default empty_attr (m !! k))))
           (gset_to_gmap () (dom m ∪ touched upd)).

(** [$unset] of an attribute path removes the attribute. *)
Definition apply_unset (ps : gset Path) (m : gmap string AttrDoc)
  : gmap string AttrDoc :=
  filter (λ kv, [DbDevAttributes; kv.1] ∉ ps) m.

Definition apply_update (u : Update) (inserting : bool) (d : Document)
  : Document :=
  let upd := if inserting then op_set u ∪ op_setOnInsert u else op_set u in
  {| doc_id := doc_id d;
     doc_attributes := apply_unset (op_unset u)
                         (apply_set upd (doc_attributes d)) |}.

(** Updates the first document the query selects; the second component
    tells whether a document was selected and whether it changed. *)
Fixpoint update_first (q : Query) (u : Update) (coll : Collection)
  : Collection * option bool :=
  match coll with
  | [] => ([], None)
  | d :: rest =>
      if matches d q then
        let d' := apply_update u false d in
        (d' :: rest, Some (bool_decide (d' ≠ d)))
      else
        let '(rest', r) := update_first q u rest in (d :: rest', r)
  end.

Definition b2z (b : bool) : Z := if b then 1 else 0.

(** [UpdateOne], with the [upsert] option as its last argument. *)
Definition UpdateOne (b : Backend) (coll : Collection) (q : Query)
  (u : Update) (upsert : bool) : (Error + UpdateResult) * Collection :=
  match request_error b with
  | Some e => (inl e, coll)
  | None =>
      if decide (conflicting u) then
        (inl (ErrBackend "conflicting update paths"), coll)
      else
        match update_first q u coll with
        | (coll', Some changed) =>
            (inr (mkUpdateResult 1 (b2z changed) 0), coll')
        | (_, None) =>
            if upsert then
              match query_id q with
              | Some id =>
                  (inr (mkUpdateResult 0 0 1),
                   (coll ++ [apply_update u true (mkDocument id ∅)])%list)
              | None =>
                  (inl (ErrBackend "upsert without an _id"), coll)
              end
            else (inr (mkUpdateResult 0 0 0), coll)
        end
  end.

(** [UpdateMany]: every selected document is updated. *)
Definition update_all (q : Query) (u : Update) (coll : Collection)
  : Collection :=
  map (λ d, if matches d q then apply_update u false d else d) coll.

Definition UpdateMany (b : Backend) (coll : Collection) (q : Query)
  (u : Update) : (Error + UpdateResult) * Collection :=
  match request_error b with
  | Some e => (inl e, coll)
  | None =>
      if decide (conflicting u) then
        (inl (ErrBackend "conflicting update paths"), coll)
      else
        let selected := filter (λ d, matches d q = true) coll in
        let changed :=
          filter (λ d, apply_update u false d ≠ d) selected in
        (inr (mkUpdateResult (Z.of_nat (length selected))
                             (Z.of_nat (length changed)) 0),
         update_all q u coll)
  end.

(** [FindOne] followed by [Decode]. *)
Definition ErrNoDocuments : Error := ErrBackend "mongo: no documents in result".

Definition FindOne (b : Backend) (coll : Collection) (q : Query)
  : Error + Document :=
  match request_error b with
  | Some e => inl e
  | None =>
      match filter (λ d, matches d q = true) coll with
      | [] => inl ErrNoDocuments
      | d :: _ => decode b d
      end
  end.

(** *** Aggregation *)

(** The comparison order of stored values: a missing field first, then
    numbers, strings, sub-documents, booleans and time stamps. *)
Definition bson_rank (x : option BVal) : Z :=
  match x with
  | None => 1
  | Some (BV (VNumber _)) => 2
  | Some (BV (VString _)) => 3
  | Some (BAttr _) => 4
  | Some (BV (VBool _)) => 8
  | Some (BV (VTime _)) => 9
  end.

Definition bson_leb (x y : option BVal) : bool :=
  (bson_rank x <? bson_rank y)
  || ((bson_rank x =? bson_rank y)
      && match x, y with
         | Some (BV (VNumber a)), Some (BV (VNumber b)) => a <=? b
         | Some (BV (VString a)), Some (BV (VString b)) => String.leb a b
         | Some (BV (VBool a)), Some (BV (VBool b)) => implb a b
         | Some (BV (VTime a)), Some (BV (VTime b)) => a <=? b
         | _, _ => true
         end).

(** [dir] is [1] for ascending and [-1] for descending. *)
Definition sort_leb (p : Path) (dir : Z) (a b : Document) : bool :=
  if 0 <? dir then bson_leb (lookup_path a p) (lookup_path b p)
  else bson_leb (lookup_path b p) (lookup_path a p).

Fixpoint sort_insert (leb : Document → Document → bool) (d : Document)
  (l : list Document) : list Document :=
  match l with
  | [] => [d]
  | x :: rest => if leb d x then d :: l else x :: sort_insert leb d rest
  end.

Definition sort_docs (leb : Document → Document → bool)
  (l : list Document) : list Document :=
  foldr (sort_insert leb) [] l.

Inductive Stage :=
| SSort (p : Path) (dir : Z)    (* "$sort": {p: dir} *)
| SSkip (n : Z)                 (* "$skip": n *)
| SLimit (n : Z).               (* "$limit": n *)

(** A stage with an argument out of range is refused: [$skip] takes a
    non-negative number and [$limit] a positive one. *)
Definition run_stage (st : Stage) (docs : list Document)
  : option (list Document) :=
  match st with
  | SSort p dir => Some (sort_docs (sort_leb p dir) docs)
  | SSkip n => if n <? 0 then None else Some (drop (Z.to_nat n) docs)
  | SLimit n => if n <=? 0 then None else Some (take (Z.to_nat n) docs)
  end.

Fixpoint run_stages (sts : list Stage) (docs : list Document)
  : option (list Document) :=
  match sts with
  | [] => Some docs
  | st :: rest => docs' ← run_stage st docs; run_stages rest docs'
  end.

(** [$count] emits one document holding the count, and none at all on an
    empty input. *)
Definition count_stage (docs : list Document) : list Z :=
  match docs with
  | [] => []
  | _ => [Z.of_nat (length docs)]
  end.

(** The pipeline [GetDevices] submits has a fixed shape:
    [$match], then a [$facet] with the sub-pipelines [results] and
    [totalCount: [{$count}]], then the [$project] that keeps [results] and
    reads [totalCount] as [$ifNull [$arrayElemAt [$totalCount.count, 0], 0]]. *)
Record Pipeline := mkPipeline {
  pl_match : Query;
  pl_results : list Stage;
}.

Record FacetResult := mkFacetResult {
  results : list Document;
  totalCount : Z;
}.

Definition run_pipeline (pl : Pipeline) (coll : Collection)
  : option FacetResult :=
  let docs := filter (λ d, matches d (pl_match pl) = true) coll in
  page ← run_stages (pl_results pl) docs;
  Some (mkFacetResult page (default 0 (head (count_stage docs)))).

(** A cursor over the result documents; [Aggregate] returns no cursor
    (nil) when it returns an error. *)
Abbreviation Cursor := (list FacetResult).

Definition Aggregate (b : Backend) (coll : Collection) (pl : Pipeline)
  : option Cursor * option Error :=
  match request_error b with
  | Some e => (None, Some e)
  | None =>
      match run_pipeline pl coll with
      | None => (None, Some (ErrBackend "invalid pipeline stage"))
      | Some r => (Some [r], None)
      end
  end.

(** *** Further requests: queries on a list of ids, deletion, distinct
    values, the key catalogue *)

(** A query document with the key [_id: {"$in": ids}], beside the keys of
    [in_rest]. *)
Record InQuery := mkInQuery {
  in_ids : list DeviceID;
  in_rest : Query;
}.

Definition matches_in (d : Document) (q : InQuery) : bool :=
  bool_decide (doc_id d ∈ in_ids q) && matches d (in_rest q).

(** [UpdateMany] with such a query. *)
Definition UpdateManyIn (b : Backend) (coll : Collection) (q : InQuery)
  (u : Update) : (Error + UpdateResult) * Collection :=
  match request_error b with
  | Some e => (inl e, coll)
  | None =>
      if decide (conflicting u) then
        (inl (ErrBackend "conflicting update paths"), coll)
      else
        let selected := filter (λ d, matches_in d q = true) coll in
        let changed :=
          filter (λ d, apply_update u false d ≠ d) selected in
        (inr (mkUpdateResult (Z.of_nat (length selected))
                             (Z.of_nat (length changed)) 0),
         map (λ d, if matches_in d q then apply_update u false d else d)
             coll)
  end.

Record DeleteResult := mkDeleteResult {
  DeletedCount : Z;
}.

(** Removes the first document the query selects. *)
Fixpoint delete_first (q : Query) (coll : Collection)
  : Collection * bool :=
  match coll with
  | [] => ([], false)
  | d :: rest =>
      if matches d q then (rest, true)
      else let '(rest', r) := delete_first q rest in (d :: rest', r)
  end.

Definition DeleteOne (b : Backend) (coll : Collection) (q : Query)
  : (Error + DeleteResult) * Collection :=
  match request_error b with
  | Some e => (inl e, coll)
  | None =>
      let '(coll', deleted) := delete_first q coll in
      (inr (mkDeleteResult (b2z deleted)), coll')
  end.

(** [Distinct]: the different values the selected documents hold at a
    path; a document without the field contributes none. *)
Definition Distinct (b : Backend) (coll : Collection) (p : Path) (q : Query)
  : Error + list BVal :=
  match request_error b with
  | Some e => inl e
  | None =>
      inr (remove_dups
             (omap (λ d, lookup_path d p)
                   (filter (λ d, matches d q = true) coll)))
  end.

(** The pipeline [GetAllAttributeNames] submits: [$project] turns the
    [attributes] object of each document into an array of its entries,
    [$unwind] emits one document per entry, and [$group] with a nil [_id]
    gathers the [name] of every entry into the set [allkeys].  Without any
    entry the group stage emits no document. *)
Definition all_entries (coll : Collection) : list (string * AttrDoc) :=
  coll ≫= (λ d, map_to_list (doc_attributes d)).

Definition run_allkeys (coll : Collection) : list (list Value) :=
  match all_entries coll with
  | [] => []
  | entries => [remove_dups (omap (λ kv, ad_name kv.2) entries)]
  end.

Definition AggregateAllKeys (b : Backend) (coll : Collection)
  : option (list (list Value)) * option Error :=
  match request_error b with
  | Some e => (None, Some e)
  | None => (Some (run_allkeys coll), None)
  end.

End Mongo.

(** ** The data store *)

Module DataStoreMongo.
Import Mongo.

(** What a call does: it returns, or it panics on a nil dereference. *)
Inductive Outcome (A : Type) :=
| Returns (a : A)
| Panics.
Arguments Returns {A} a.
Arguments Panics {A}.

(** Modelled from the spec: the persisted form of a [DeviceAttribute]
    struct written as one value, [{scope, name, value?, description?}]. *)
Definition encode_attr (a : DeviceAttribute) : AttrDoc :=
  {| ad_scope := Some (VString (Scope a));
     ad_name := Some (VString (Name a));
     ad_value := AValue a;
     ad_description := VString <$> Description a |}.

Definition mongoOperator (co : ComparisonOperator) : string :=
  if decide (co = Eq) then "$eq" else EmptyString.

(** The loop of [GetDevices] over [q.Filters], one query document per
    filter. *)
Definition queryFilter (filter : Filter) : Query :=
  let op := mongoOperator (Operator filter) in
  let name := AttrScope filter +:+ "-" +:+ AttrName filter in
  let field := [DbDevAttributes; name; DbDevAttributesValue] in
  match ValueFloat filter with
  | Some x =>
      QOr [QField field (COp op (VString (FValue filter)));
           QField field (COp op (VNumber x))]
  | None => QField field (COp op (VString (FValue filter)))
  end.

Definition matchStage (q : ListQuery) : Query :=
  let queryFilters := map queryFilter (Filters q) in
  let findQuery :=
    if (0 <? Z.of_nat (length queryFilters)) then QAnd queryFilters
    else QDoc [] in
  let groupFilter :=
    if decide (QGroupName q ≠ EmptyString)
    then QField DbDevAttributesGroupValue (CLit (VString (QGroupName q)))
    else QDoc [] in
  let groupExistenceFilter :=
    match HasGroup q with
    | Some b => QField DbDevAttributesGroup (CExists b)
    | None => QDoc []
    end in
  QAnd [groupFilter; groupExistenceFilter; findQuery].

Definition resultsStages (q : ListQuery) : list Stage :=
  let sortQuery :=
    match QSort q with
    | Some s =>
        let name := SortAttrScope s +:+ "-" +:+ SortAttrName s in
        let sortField := [DbDevAttributes; name; DbDevAttributesValue] in
        SSort sortField (if Ascending s then 1 else -1)
    | None => SSkip 0
    end in
  let limitQuery := if 0 <? Limit q then SLimit (Limit q) else SSkip 0 in
  [sortQuery; SSkip (Skip q); limitQuery].

(** [GetDevices].  The error of [Aggregate] is not looked at; the cursor
    is used as returned. *)
Definition GetDevices (b : Backend) (coll : Collection) (q : ListQuery)
  : Outcome (list Document * Z * option Error) :=
  let '(cursor, _) :=
    Aggregate b coll (mkPipeline (matchStage q) (resultsStages q)) in
  match cursor with
  | None => Panics
  | Some [] => Returns ([], 0, None)
  | Some (raw :: _) =>
      match decode b raw with
      | inl err => Returns ([], -1, Some (Wrap err "failed to fetch device list"))
      | inr res => Returns (results res, totalCount res, None)
      end
  end.

(** [makeAttrField] composes attribute field names. *)
Definition makeAttrField (attrName attrScope : string)
  (subFields : list string) : Path :=
  ([DbDevAttributes; attrScope +:+ "-" +:+ attrName] ++ subFields)%list.

(** The body of the loop of [makeAttrUpsert], for one attribute whose
    name is not empty. *)
Definition upsertAttr (upsert : bsonM) (a : DeviceAttribute) : bsonM :=
  let scope :=
    if decide (Scope a = EmptyString) then AttrScopeInventory else Scope a in
  let upsert :=
    <[makeAttrField (Name a) scope [DbDevAttributesScope]
        := BV (VString scope)]> upsert in
  let upsert :=
    <[makeAttrField (Name a) scope [DbDevAttributesName]
        := BV (VString (Name a))]> upsert in
  let upsert :=
    match AValue a with
    | Some v =>
        <[makeAttrField (Name a) scope [DbDevAttributesValue] := BV v]> upsert
    | None => upsert
    end in
  match Description a with
  | Some d =>
      <[makeAttrField (Name a) scope [DbDevAttributesDesc]
          := BV (VString d)]> upsert
  | None => upsert
  end.

(** [makeAttrUpsert]: the loop over [attrs], started from the empty
    document; the first attribute without a name ends it with an error.
    (The source also stores the defaulted scope back into [attrs]; the
    callers modelled here do not read the slice again.) *)
Fixpoint makeAttrUpsert_from (upsert : bsonM) (attrs : DeviceAttributes)
  : Error + bsonM :=
  match attrs with
  | [] => inr upsert
  | a :: rest =>
      if decide (Name a = EmptyString) then inl ErrNoAttrName
      else makeAttrUpsert_from (upsertAttr upsert a) rest
  end.

Definition makeAttrUpsert (attrs : DeviceAttributes) : Error + bsonM :=
  makeAttrUpsert_from ∅ attrs.

Definition updatedField : Path :=
  [DbDevAttributes; AttrScopeSystem +:+ "-" +:+ AttrNameUpdated].
Definition createdField : Path :=
  [DbDevAttributes; AttrScopeSystem +:+ "-" +:+ AttrNameCreated].

(** The update [UpsertAttributes] submits: the document of
    [makeAttrUpsert] with the [updated] stamp added goes under [$set], the
    [created] stamp under [$setOnInsert]. *)
Definition stampedUpdate (now : Z) (update : bsonM) : Update :=
  let update :=
    <[updatedField :=
        BAttr (encode_attr
                 (mkAttr AttrScopeSystem AttrNameUpdated
                         (Some (VTime now)) None))]> update in
  mkUpdate update
    {[createdField :=
        BAttr (encode_attr
                 (mkAttr AttrScopeSystem AttrNameCreated
                         (Some (VTime now)) None))]}
    ∅.

(** [UpsertAttributes]; [now] is the reading of the clock. *)
Definition UpsertAttributes (b : Backend) (now : Z) (coll : Collection)
  (id : DeviceID) (attrs : DeviceAttributes) : option Error * Collection :=
  let filter := QId id in
  match makeAttrUpsert attrs with
  | inl err => (Some err, coll)
  | inr update =>
      match UpdateOne b coll filter (stampedUpdate now update) true with
      | (inl err, coll') => (Some err, coll')
      | (inr _, coll') => (None, coll')
      end
  end.

(** [AddDevice] inserts a new device, initializing the inventory data. *)
Definition AddDevice (b : Backend) (now : Z) (coll : Collection)
  (dev : Device) : option Error * Collection :=
  let attrs :=
    if decide (Group dev ≠ EmptyString)
    then (Attributes dev ++
            [mkAttr AttrScopeSystem AttrNameGroup
                    (Some (VString (Group dev))) None])%list
    else Attributes dev in
  match UpsertAttributes b now coll (ID dev) attrs with
  | (Some err, coll') => (Some (Wrap err "failed to store device"), coll')
  | (None, coll') => (None, coll')
  end.

Definition UnsetDeviceGroup (b : Backend) (coll : Collection)
  (id : DeviceID) (groupName : GroupName) : option Error * Collection :=
  let filter :=
    QDoc [QId id;
          QField DbDevAttributesGroupValue (CLit (VString groupName))] in
  let update := mkUpdate ∅ ∅ {[DbDevAttributesGroup]} in
  match UpdateMany b coll filter update with
  | (inl err, coll') => (Some err, coll')
  | (inr res, coll') =>
      if ModifiedCount res <=? 0 then (Some ErrDevNotFound, coll')
      else (None, coll')
  end.

Definition UpdateDeviceGroup (b : Backend) (coll : Collection)
  (devId : DeviceID) (newGroup : GroupName) : option Error * Collection :=
  let filter := QId devId in
  let update :=
    mkUpdate
      {[DbDevAttributesGroup :=
          BAttr (encode_attr
                   (mkAttr AttrScopeSystem DbDevGroup
                           (Some (VString newGroup)) None))]}
      ∅ ∅ in
  match UpdateOne b coll filter update false with
  | (inl err, coll') => (Some err, coll')
  | (inr res, coll') =>
      if 0 <? ModifiedCount res then (None, coll')
      else (Some ErrDevNotFound, coll')
  end.

Definition GetDevicesByGroup (b : Backend) (coll : Collection)
  (group : GroupName) (skip limit : Z)
  : Outcome (list DeviceID * Z * option Error) :=
  let filter := QField DbDevAttributesGroupValue (CLit (VString group)) in
  match FindOne b coll filter with
  | inl _ => Returns ([], -1, Some ErrGroupNotFound)
  | inr _ =>
      let hasGroup := bool_decide (group ≠ EmptyString) in
      match GetDevices b coll
              (mkListQuery skip limit [] None (Some hasGroup) group) with
      | Panics => Panics
      | Returns (_, _, Some e) =>
          Returns ([], -1,
                   Some (Wrap e "failed to get device list for group"))
      | Returns (devices, totalDevices, None) =>
          Returns (map doc_id devices, totalDevices, None)
      end
  end.

(** Modelled from the spec: the [Group] of a decoded device, the read-view
    of the value of the reserved attribute [(system, group)], empty when
    the attribute or its value is absent. *)
Definition device_Group (dev : Document) : GroupName :=
  match doc_attributes dev !! (AttrScopeSystem +:+ "-" +:+ AttrNameGroup) with
  | Some a =>
      match ad_value a with
      | Some (VString g) => g
      | _ => EmptyString
      end
  | None => EmptyString
  end.

Definition GetDevice (b : Backend) (coll : Collection) (id : DeviceID)
  : option Document * option Error :=
  if decide (id = NilDeviceID) then (None, None)
  else
    match FindOne b coll (QId id) with
    | inl err =>
        if decide (err = ErrNoDocuments) then (None, None)
        else (None, Some (Wrap err "failed to fetch device"))
    | inr res => (Some res, None)
    end.

Definition GetDeviceGroup (b : Backend) (coll : Collection) (id : DeviceID)
  : GroupName * option Error :=
  match GetDevice b coll id with
  | (Some dev, None) => (device_Group dev, None)
  | _ => (EmptyString, Some ErrDevNotFound)
  end.

Definition DeleteDevice (b : Backend) (coll : Collection) (id : DeviceID)
  : option Error * Collection :=
  let filter := QId id in
  match DeleteOne b coll filter with
  | (inl err, coll') => (Some err, coll')
  | (inr result, coll') =>
      if DeletedCount result <? 1 then (Some ErrDevNotFound, coll')
      else (None, coll')
  end.

Definition UpdateDevicesGroup (b : Backend) (coll : Collection)
  (devIDs : list DeviceID) (group : GroupName)
  : (Z * Z * option Error) * Collection :=
  let filter := mkInQuery devIDs (QDoc []) in
  let update :=
    mkUpdate
      {[DbDevAttributesGroup :=
          BAttr (encode_attr
                   (mkAttr AttrScopeSystem DbDevGroup
                           (Some (VString group)) None))]}
      ∅ ∅ in
  match UpdateManyIn b coll filter update with
  | (inl err, coll') => ((-1, -1, Some err), coll')
  | (inr res, coll') => ((MatchedCount res, ModifiedCount res, None), coll')
  end.

Definition UnsetDevicesGroup (b : Backend) (coll : Collection)
  (deviceIDs : list DeviceID) (group : GroupName)
  : (Z * option Error) * Collection :=
  let filter :=
    mkInQuery deviceIDs
      (QField DbDevAttributesGroupValue (CLit (VString group))) in
  let update := mkUpdate ∅ ∅ {[DbDevAttributesGroup]} in
  match UpdateManyIn b coll filter update with
  | (inl err, coll') => ((-1, Some err), coll')
  | (inr res, coll') => ((ModifiedCount res, None), coll')
  end.

(** The type assertion [d.(string)], on a decoded value and on a value
    of a path; [None] is the panic of a failed assertion. *)
Definition assert_string (d : Value) : option string :=
  match d with VString s => Some s | _ => None end.

Definition assert_string_at (d : BVal) : option string :=
  match d with BV v => assert_string v | BAttr _ => None end.

Definition assert_strings (results : list Value) : option (list string) :=
  mapM assert_string results.

Definition ListGroups (b : Backend) (coll : Collection)
  : Outcome (list GroupName * option Error) :=
  let filter := QField DbDevAttributesGroupValue (CExists true) in
  match Distinct b coll DbDevAttributesGroupValue filter with
  | inl err => Returns ([], Some err)
  | inr results =>
      match mapM assert_string_at results with
      | Some groups => Returns (groups, None)
      | None => Panics
      end
  end.

(** [GetAllAttributeNames]; unlike [GetDevices] it looks at the error of
    [Aggregate] first.  Decoding from a cursor without a document is the
    end-of-file error, answered with the empty list. *)
Definition GetAllAttributeNames (b : Backend) (coll : Collection)
  : Outcome (list string * option Error) :=
  match AggregateAllKeys b coll with
  | (_, Some err) => Returns ([], Some err)
  | (None, None) => Panics
  | (Some cursor, None) =>
      match cursor with
      | [] => Returns ([], None)
      | elem :: _ =>
          match decode b elem with
          | inl err => Returns ([], Some (Wrap err "failed to get attributes"))
          | inr results =>
              match assert_strings results with
              | Some attributeNames => Returns (attributeNames, None)
              | None => Panics
              end
          end
      end
  end.

End DataStoreMongo.

(** ** Opening the data store and provisioning indexes *)

Module Connection.

(** [strings.Contains] and [strings.HasPrefix]. *)
Fixpoint Contains (s substr : string) : bool :=
  String.prefix substr s
  || match s with
     | EmptyString => false
     | String _ rest => Contains rest substr
     end.

Definition HasPrefix (s prefix : string) : bool := String.prefix prefix s.

Record DataStoreMongoConfig := mkConfig {
  ConnectionString : string;
  SSL : bool;
  SSLSkipVerify : bool;
  Username : string;
  Password : string;
}.

(** The client options [NewDataStoreMongo] builds: the URI, the
    credentials when a user name is given, and the TLS setting
    ([InsecureSkipVerify]) when SSL is asked for. *)
Record ClientOptions := mkClientOptions {
  URI : string;
  Auth : option (string * string);
  TLSConfig : option bool;
}.

Definition clientOptions (config : DataStoreMongoConfig) : ClientOptions :=
  let connectionString :=
    if negb (Contains (ConnectionString config) "://")
    then "mongodb://" +:+ ConnectionString config
    else ConnectionString config in
  {| URI := connectionString;
     Auth := if decide (Username config ≠ EmptyString)
             then Some (Username config, Password config) else None;
     TLSConfig := if SSL config then Some (SSLSkipVerify config) else None |}.

Section driver.

(** The driver: [mongo.Connect] returns a client pointer and an error,
    [Ping] may fail on a client. *)
Variable Client : Type.
Variable Connect : ClientOptions → option Client * option Error.
Variable Ping : Client → option Error.

(** The package variables [clientGlobal] and [once]. *)
Record Globals := mkGlobals {
  clientGlobal : option Client;
  once_done : bool;
}.

(** The function handed to [once.Do]; its result is the value
    [clientGlobal] is left with. *)
Definition connectOnce (config : DataStoreMongoConfig) : option Client :=
  match Connect (clientOptions config) with
  | (client, Some _) => client
  | (None, None) => None
  | (Some client, None) =>
      match Ping client with
      | Some _ => None
      | None => Some client
      end
  end.

(** [NewDataStoreMongo]; the data store is returned as its client. *)
Definition NewDataStoreMongo (g : Globals) (config : DataStoreMongoConfig)
  : (option Client * option Error) * Globals :=
  let g' :=
    if once_done g then g else mkGlobals (connectOnce config) true in
  match clientGlobal g' with
  | None =>
      ((None, Some (ErrBackend "failed to open mongo-driver session")), g')
  | Some client => ((Some client, None), g')
  end.

End driver.

(** [isTooManyIndexes], on the message of the error. *)
Definition isTooManyIndexes (e : string) : bool :=
  HasPrefix e "add index fails, too many indexes for inventory.devices".

(** The field [indexAttr] asks an index for. *)
Definition indexField (attr : string) : string :=
  "attributes." +:+ attr +:+ ".values".

(** [indexAttr]; [CreateOne] is the index view of the collection and
    returns the message of its error, [db] is the name of the database. *)
Definition indexAttr (CreateOne : string → option string) (db attr : string)
  : option Error :=
  match CreateOne (indexField attr) with
  | Some err =>
      if isTooManyIndexes err then None
      else Some (Wrap (ErrBackend err)
                      ("failed to index attr " +:+ attr +:+ " in db " +:+ db))
  | None => None
  end.

End Connection.

(** ** Field names as strings *)

Module FieldName.
Import DataStoreMongo.

(** [strings.Join]. *)
Fixpoint Join (elems : list string) (sep : string) : string :=
  match elems with
  | [] => EmptyString
  | e :: rest =>
      match rest with
      | [] => e
      | _ :: _ => e +:+ sep +:+ Join rest sep
      end
  end.

(** [makeAttrField] as the source has it, on strings: the dotted field
    name of which [DataStoreMongo.makeAttrField] is the path. *)
Definition makeAttrFieldName (attrName attrScope : string)
  (subFields : list string) : string :=
  let field := DbDevAttributes +:+ "." +:+ attrScope +:+ "-" +:+ attrName in
  if (0 <? length subFields)%nat
  then Join (field :: subFields) "."
  else field.

(** The path a dotted field name denotes for the document store: the
    name is cut at every dot. *)
Fixpoint fields (s : string) : Path :=
  match s with
  | EmptyString => [EmptyString]
  | String c rest =>
      if Ascii.eqb c "."
      then EmptyString :: fields rest
      else match fields rest with
           | [] => [String c EmptyString]
           | seg :: segs => String c seg :: segs
           end
  end.

End FieldName.

(** ** The contracts, in the words of the specification *)

Module Spec.
Import Mongo.

(** *** Attribute merge *)

Definition default_scope (a : DeviceAttribute) : string :=
  if decide (Scope a = EmptyString) then AttrScopeInventory else Scope a.

(** The composite key ["scope-name"] an attribute is stored under. *)
Definition attr_key (a : DeviceAttribute) : string :=
  default_scope a +:+ "-" +:+ Name a.

(** Merging one submitted attribute into the stored one: scope and name
    are re-asserted, value and description are overwritten only when the
    submission sets them. *)
Definition merge_attr (old : AttrDoc) (a : DeviceAttribute) : AttrDoc :=
  {| ad_scope := Some (VString (default_scope a));
     ad_name := Some (VString (Name a));
     ad_value := match AValue a with Some v => Some v | None => ad_value old end;
     ad_description :=
       match Description a with
       | Some d => Some (VString d)
       | None => ad_description old
       end |}.

Definition merge_one (m : gmap string AttrDoc) (a : DeviceAttribute)
  : gmap string AttrDoc :=
  <[attr_key a := merge_attr (default empty_attr (m !! attr_key a)) a]> m.

Definition merge_all (m : gmap string AttrDoc) (attrs : DeviceAttributes)
  : gmap string AttrDoc :=
  foldl merge_one m attrs.

(** *** Time stamps *)

Definition updated_key : string := AttrScopeSystem +:+ "-" +:+ AttrNameUpdated.
Definition created_key : string := AttrScopeSystem +:+ "-" +:+ AttrNameCreated.

Definition stamp (name : string) (now : Z) : AttrDoc :=
  mkAttrDoc (Some (VString AttrScopeSystem)) (Some (VString name))
            (Some (VTime now)) None.

(** A batch passes validation when every submitted name is non-empty; it
    is writable when, in addition, it does not itself address one of the
    two engine-managed time stamps. *)
Definition named (attrs : DeviceAttributes) : Prop :=
  Forall (λ a, Name a ≠ EmptyString) attrs.

Definition unreserved (attrs : DeviceAttributes) : Prop :=
  Forall (λ a, attr_key a ≠ updated_key ∧ attr_key a ≠ created_key) attrs.

(** The first record stored for a device. *)
Fixpoint find_doc (id : DeviceID) (coll : Collection) : option Document :=
  match coll with
  | [] => None
  | d :: rest => if decide (doc_id d = id) then Some d else find_doc id rest
  end.

(** Merge as an upsert: the record of the device is merged into and its
    [updated] stamp set; a device without a record gets one, with the
    [created] stamp as well. *)
Fixpoint upsert (now : Z) (id : DeviceID) (attrs : DeviceAttributes)
  (coll : Collection) : Collection :=
  match coll with
  | [] =>
      [mkDocument id
         (<[created_key := stamp AttrNameCreated now]>
            (<[updated_key := stamp AttrNameUpdated now]>
               (merge_all ∅ attrs)))]
  | d :: rest =>
      if decide (doc_id d = id) then
        mkDocument id
          (<[updated_key := stamp AttrNameUpdated now]>
             (merge_all (doc_attributes d) attrs)) :: rest
      else d :: upsert now id attrs rest
  end.

(** *** Listing *)

Definition attr_value (d : Document) (scope name : string) : option Value :=
  a ← doc_attributes d !! (scope +:+ "-" +:+ name); ad_value a.

Definition group_key : string := AttrScopeSystem +:+ "-" +:+ AttrNameGroup.

Definition group_value (d : Document) : option Value :=
  attr_value d AttrScopeSystem AttrNameGroup.

Definition has_group (d : Document) : bool :=
  bool_decide (is_Some (doc_attributes d !! group_key)).

(** The dual-representation match rule: the stored value equals the
    string form, or the parsed-number form when the filter carries one. *)
Definition dual_match (f : Filter) (d : Document) : bool :=
  let stored := attr_value d (AttrScope f) (AttrName f) in
  bool_decide (stored = Some (VString (FValue f)))
  || match ValueFloat f with
     | Some x => bool_decide (stored = Some (VNumber x))
     | None => false
     end.

Definition group_ok (q : ListQuery) (d : Document) : bool :=
  (if decide (QGroupName q = EmptyString) then true
   else bool_decide (group_value d = Some (VString (QGroupName q))))
  && match HasGroup q with
     | Some b => Bool.eqb (has_group d) b
     | None => true
     end.

(** A device satisfies a query when it meets the group constraints and
    every filter; only the equality operator is known. *)
Definition satisfies (q : ListQuery) (d : Document) : bool :=
  group_ok q d
  && forallb (λ f, bool_decide (Operator f = Eq) && dual_match f d) (Filters q).


Definition ordered (q : ListQuery) (l : list Document) : list Document :=
  match QSort q with
  | Some s =>
      sort_docs
        (sort_leb [DbDevAttributes;
                   SortAttrScope s +:+ "-" +:+ SortAttrName s;
                   DbDevAttributesValue]
                  (if Ascending s then 1 else -1)) l
  | None => l
  end.

(** Skip, then limit; a non-positive limit is no limit. *)
Definition paginate {A} (skip limit : Z) (l : list A) : list A :=
  let l := drop (Z.to_nat skip) l in
  if 0 <? limit then take (Z.to_nat limit) l else l.

(** *** Groups *)

Definition in_group (g : GroupName) (d : Document) : bool :=
  bool_decide (group_value d = Some (VString g)).

(** The precondition of the compare-and-clear on one record. *)
Definition holds_group (id : DeviceID) (g : GroupName) (d : Document) : Prop :=
  doc_id d = id ∧ group_value d = Some (VString g).

(** Compare-and-clear on one record. *)
Definition clear_group (id : DeviceID) (g : GroupName) (d : Document)
  : Document :=
  if decide (holds_group id g d)
  then mkDocument (doc_id d) (delete group_key (doc_attributes d))
  else d.

(** The update document of [UnsetDeviceGroup]. *)
Definition unsetGroup : Update := mkUpdate ∅ ∅ {[DbDevAttributesGroup]}.

(** The attribute [UpdateDeviceGroup] writes. *)
Definition group_attr (g : GroupName) : AttrDoc :=
  mkAttrDoc (Some (VString AttrScopeSystem)) (Some (VString DbDevGroup))
            (Some (VString g)) None.

Definition set_group (g : GroupName) (d : Document) : Document :=
  mkDocument (doc_id d) (<[group_key := group_attr g]> (doc_attributes d)).

(** Assigning a group to the first record of a device. *)
Fixpoint assign_group (id : DeviceID) (g : GroupName) (coll : Collection)
  : Collection :=
  match coll with
  | [] => []
  | d :: rest =>
      if decide (doc_id d = id) then set_group g d :: rest
      else d :: assign_group id g rest
  end.

(** The update document of [UpdateDeviceGroup]. *)
Definition setGroup (g : GroupName) : Update :=
  mkUpdate {[DbDevAttributesGroup := BAttr (group_attr g)]} ∅ ∅.


(** *** Whole-store views *)

(** The ids of the stored records, in order. *)
Definition ids (coll : Collection) : list DeviceID := map doc_id coll.

(** An attribute map is well formed when every attribute stored under a
    key carries a scope and a name, both strings, that compose the key. *)
Definition wf_attrs (m : gmap string AttrDoc) : Prop :=
  ∀ k a, m !! k = Some a →
    ∃ sc n, ad_scope a = Some (VString sc) ∧ ad_name a = Some (VString n)
            ∧ k = sc +:+ "-" +:+ n.

Definition wf_store (coll : Collection) : Prop :=
  Forall (λ d, wf_attrs (doc_attributes d)) coll.

(** Removing the first record of a device. *)
Fixpoint delete_doc (id : DeviceID) (coll : Collection) : Collection :=
  match coll with
  | [] => []
  | d :: rest =>
      if decide (doc_id d = id) then rest else d :: delete_doc id rest
  end.


Definition with_has_group (h : option bool) (q : ListQuery) : ListQuery :=
  mkListQuery (Skip q) (Limit q) (Filters q) (QSort q) h (QGroupName q).

(** Each record is followed by one that does not come before it. *)
Fixpoint ordered_by (leb : Document → Document → bool) (l : list Document)
  : Prop :=
  match l with
  | a :: rest =>
      match rest with
      | b :: _ => leb a b = true
      | [] => True
      end ∧ ordered_by leb rest
  | [] => True
  end.

(** The string does not contain the character. *)
Fixpoint free_of (c : Ascii.ascii) (s : string) : Prop :=
  match s with
  | EmptyString => True
  | String x rest => x ≠ c ∧ free_of c rest
  end.

End Spec.

(** ** Sample data *)

Module Sample.
Import Mongo.

(** The two partial submissions of the field-additivity scenario. *)
Definition sn_value : DeviceAttribute :=
  mkAttr EmptyString "sn" (Some (VString "X")) None.
Definition sn_description : DeviceAttribute :=
  mkAttr EmptyString "sn" None (Some "d").



(** A device that has been assigned the group [abc]. *)
Definition store_with_group : Collection :=
  snd (DataStoreMongo.UpdateDeviceGroup Healthy [mkDocument "1" ∅] "1" "abc").

(** A device reporting the number 4 as [attrFloat], and the filter on
    [attrFloat] that carries the literal both as a string and as a number. *)
Definition store_with_float : Collection :=
  snd (DataStoreMongo.UpsertAttributes Healthy 1 [] "4"
         [mkAttr EmptyString "attrFloat" (Some (VNumber 4)) None]).

Definition float_query : ListQuery :=
  mkListQuery 0 20 [mkFilter "inventory" "attrFloat" "4.0" (Some 4) Eq]
              None None EmptyString.

(** The store after the first submission for a new device. *)
Definition store_with_sn : Collection :=
  snd (DataStoreMongo.UpsertAttributes Healthy 10 [] "0099" [sn_value]).

(** The page and count of the float query. *)
Definition float_page : list Document * Z :=
  match DataStoreMongo.GetDevices Healthy store_with_float float_query with
  | DataStoreMongo.Returns (page, total, _) => (page, total)
  | DataStoreMongo.Panics => ([], 0)
  end.

(** The second submission for the same device, ten ticks later. *)
Definition store_with_sn_twice : Collection :=
  snd (DataStoreMongo.UpsertAttributes Healthy 20 store_with_sn "0099"
         [sn_description]).

(** Devices [1] (no group), [2] and [3] (both in group [g]). *)
Definition three_devices : Collection :=
  let c := snd (DataStoreMongo.AddDevice Healthy 1 [] (mkDevice "1" [] EmptyString)) in
  let c := snd (DataStoreMongo.AddDevice Healthy 2 c (mkDevice "2" [] "g")) in
  snd (DataStoreMongo.AddDevice Healthy 3 c (mkDevice "3" [] "g")).

(** Three devices scoring 3, 4 and 5. *)
Definition scored (id : DeviceID) (n : Z) : Device :=
  mkDevice id [mkAttr EmptyString "score" (Some (VNumber n)) None] EmptyString.

Definition scored_devices : Collection :=
  let c := snd (DataStoreMongo.AddDevice Healthy 1 [] (scored "a" 4)) in
  let c := snd (DataStoreMongo.AddDevice Healthy 2 c (scored "b" 3)) in
  snd (DataStoreMongo.AddDevice Healthy 3 c (scored "c" 5)).



(** The two best scores, best first. *)
Definition score_query : ListQuery :=
  mkListQuery 0 2 [] (Some (mkSort "inventory" "score" false))
              None EmptyString.

Definition score_page : list Document :=
  match DataStoreMongo.GetDevices Healthy scored_devices score_query with
  | DataStoreMongo.Returns (page, _, _) => page
  | DataStoreMongo.Panics => []
  end.

(** An attribute without a name. *)
Definition unnamed_attr : DeviceAttribute :=
  mkAttr EmptyString EmptyString (Some (VString "X")) None.

End Sample.

(** ** Facts about the store *)

Section store_facts.
Import Mongo.

Lemma elem_of_touched (upd : bsonM) (k : string) :
  k ∈ touched upd ↔ ∃ p, is_Some (upd !! p) ∧ attr_of_path p = Some k.
Proof.
  unfold touched. rewrite elem_of_set_omap.
  split; intros (p & Hp & Hk); exists p; split; try done.
  - by apply elem_of_dom.
  - by apply elem_of_dom.
Qed.

Lemma lookup_apply_set (upd : bsonM) (m : gmap string AttrDoc) (k : string) :
  apply_set upd m !! k =
    if decide (k ∈ dom m ∪ touched upd)
    then Some (set_attr upd k (default empty_attr (m !! k)))
    else None.
Proof.
  unfold apply_set. rewrite map_lookup_imap, lookup_gset_to_gmap.
  destruct (decide (k ∈ dom m ∪ touched upd)) as [Hin|Hin].
  - by rewrite option_guard_True.
  - by rewrite option_guard_False.
Qed.

(** An attribute no path of the update addresses is left as it is. *)
Lemma set_attr_untouched (upd : bsonM) (k : string) (old : AttrDoc) :
  k ∉ touched upd → set_attr upd k old = old.
Proof.
  intros Hk.
  assert (Hnone : ∀ p, attr_of_path p = Some k → upd !! p = None).
  { intros p Hp. destruct (upd !! p) eqn:E; [|done].
    exfalso. apply Hk, elem_of_touched. exists p. by rewrite E. }
  unfold set_attr, set_field.
  rewrite !Hnone by done. by destruct old.
Qed.

Lemma apply_set_default (upd : bsonM) (m : gmap string AttrDoc) (k : string) :
  default empty_attr (apply_set upd m !! k)
  = set_attr upd k (default empty_attr (m !! k)).
Proof.
  rewrite lookup_apply_set.
  destruct (decide (k ∈ dom m ∪ touched upd)) as [Hin|Hin]; [done|].
  apply not_elem_of_union in Hin as [Hm Ht].
  apply not_elem_of_dom in Hm. rewrite Hm. simpl.
  by rewrite set_attr_untouched.
Qed.

Lemma apply_unset_empty (m : gmap string AttrDoc) : apply_unset ∅ m = m.
Proof.
  unfold apply_unset. apply map_filter_id. intros k a _. set_solver.
Qed.

End store_facts.

(** ** Facts about list queries *)

Section list_query_facts.
Import Mongo DataStoreMongo Spec.

Lemma lookup_path_value (d : Document) (k : string) :
  lookup_path d [DbDevAttributes; k; DbDevAttributesValue]
  = BV <$> (doc_attributes d !! k ≫= ad_value).
Proof.
  unfold lookup_path. rewrite decide_True by done.
  by destruct (doc_attributes d !! k).
Qed.

Lemma lookup_path_attr (d : Document) (k : string) :
  lookup_path d [DbDevAttributes; k] = BAttr <$> doc_attributes d !! k.
Proof. unfold lookup_path. by rewrite decide_True. Qed.

Lemma BV_fmap_eq (o : option Value) (v : Value) :
  BV <$> o = Some (BV v) ↔ o = Some v.
Proof. destruct o; simpl; split; congruence. Qed.

Lemma eval_eq_value (d : Document) (k : string) (v : Value) :
  bool_decide
    (lookup_path d [DbDevAttributes; k; DbDevAttributesValue] = Some (BV v))
  = bool_decide (doc_attributes d !! k ≫= ad_value = Some v).
Proof. rewrite lookup_path_value. apply bool_decide_ext, BV_fmap_eq. Qed.

Lemma mongoOperator_eq (co : ComparisonOperator) :
  bool_decide (mongoOperator co = "$eq") = bool_decide (co = Eq).
Proof.
  unfold mongoOperator. destruct (decide (co = Eq)) as [->|Hne].
  - by rewrite !bool_decide_eq_true_2.
  - by rewrite !bool_decide_eq_false_2.
Qed.

(** The query document of one filter holds exactly under the
    dual-representation rule, for the equality operator. *)
Lemma matches_queryFilter (d : Document) (f : Filter) :
  matches d (queryFilter f)
  = bool_decide (Operator f = Eq) && dual_match f d.
Proof.
  unfold queryFilter, dual_match, attr_value.
  destruct (ValueFloat f) as [x|]; cbn [matches existsb eval_cond];
    rewrite ?eval_eq_value, mongoOperator_eq;
    destruct (bool_decide (Operator f = Eq)); cbn [andb orb];
    rewrite ?orb_false_r; done.
Qed.

Lemma matches_matchStage (d : Document) (q : ListQuery) :
  matches d (matchStage q) = satisfies q d.
Proof.
  unfold matchStage, satisfies, group_ok. cbn [matches forallb].
  rewrite andb_true_r, andb_assoc. f_equal; [f_equal|].
  - destruct (decide (QGroupName q ≠ EmptyString)) as [Hg|Hg].
    + rewrite decide_False by done. cbn [matches eval_cond].
      unfold DbDevAttributesGroupValue, DbDevAttributesGroup. simpl app.
      by rewrite eval_eq_value.
    + rewrite decide_True by (by destruct (decide (QGroupName q = EmptyString))).
      done.
  - destruct (HasGroup q) as [b|]; [|done].
    cbn [matches eval_cond]. unfold DbDevAttributesGroup, has_group.
    rewrite lookup_path_attr. f_equal. apply bool_decide_ext.
    unfold group_key. rewrite fmap_is_Some. done.
  - assert (Hall : ∀ l, forallb (matches d) (map queryFilter l)
        = forallb (λ f, bool_decide (Operator f = Eq) && dual_match f d) l).
    { induction l as [|f l IH]; [done|].
      cbn [map forallb]. by rewrite matches_queryFilter, IH. }
    destruct (Filters q) as [|f l]; [done|].
    rewrite (proj2 (Z.ltb_lt _ _)) by (cbn [map length]; lia).
    cbn [matches]. apply Hall.
Qed.

Lemma sort_insert_perm (leb : Document → Document → bool) (d : Document)
  (l : list Document) : sort_insert leb d l ≡ₚ d :: l.
Proof.
  induction l as [|x l IH]; [done|].
  cbn [sort_insert]. destruct (leb d x); [done|].
  rewrite IH. apply perm_swap.
Qed.

Lemma sort_docs_perm (leb : Document → Document → bool) (l : list Document) :
  sort_docs leb l ≡ₚ l.
Proof.
  induction l as [|x l IH]; [done|].
  unfold sort_docs in *. cbn [foldr]. by rewrite sort_insert_perm, IH.
Qed.

Lemma ordered_perm (q : ListQuery) (l : list Document) : ordered q l ≡ₚ l.
Proof. unfold ordered. destruct (QSort q); [apply sort_docs_perm|done]. Qed.

Lemma count_stage_total (docs : list Document) :
  default 0 (head (count_stage docs)) = Z.of_nat (length docs).
Proof. by destruct docs. Qed.

Lemma run_resultsStages (q : ListQuery) (docs : list Document) :
  0 ≤ Skip q →
  run_stages (resultsStages q) docs
  = Some (paginate (Skip q) (Limit q) (ordered q docs)).
Proof.
  intros Hskip. unfold resultsStages, paginate, ordered.
  assert (Hs : (Skip q <? 0) = false) by (apply Z.ltb_ge; lia).
  assert (Hl : (0 <? Limit q) = true → (Limit q <=? 0) = false).
  { intros H%Z.ltb_lt. apply Z.leb_gt. lia. }
  destruct (QSort q) as [s|]; destruct (0 <? Limit q);
    repeat (cbn [run_stages run_stage mbind option_bind];
            rewrite ?Hs, ?Hl, ?drop_0 by done;
            try change (0 <? 0) with false);
    done.
Qed.

(** On a healthy backend a query with a non-negative skip is executed, and
    the result is the page cut from the ordered matches, with their count. *)
Lemma GetDevices_healthy (coll : Collection) (q : ListQuery) :
  0 ≤ Skip q →
  GetDevices Healthy coll q
  = Returns (paginate (Skip q) (Limit q)
               (ordered q (filter (λ d, satisfies q d = true) coll)),
             Z.of_nat (length (filter (λ d, satisfies q d = true) coll)),
             None).
Proof.
  intros Hskip. unfold GetDevices, Aggregate, run_pipeline.
  cbn [request_error pl_match pl_results].
  rewrite (list_filter_iff _ (λ d, satisfies q d = true))
    by (intros d; by rewrite matches_matchStage).
  rewrite run_resultsStages by done. cbn [mbind option_bind decode].
  by rewrite count_stage_total.
Qed.

(** A negative skip makes the store refuse the pipeline. *)
Lemma GetDevices_negative_skip (b : Backend) (coll : Collection)
  (q : ListQuery) : Skip q < 0 → GetDevices b coll q = Panics.
Proof.
  intros Hskip. unfold GetDevices, Aggregate, run_pipeline.
  destruct (request_error b); [done|].
  cbn [pl_match pl_results]. unfold resultsStages.
  assert (Hs : (Skip q <? 0) = true) by (apply Z.ltb_lt; lia).
  destruct (QSort q);
    repeat (cbn [run_stages run_stage mbind option_bind];
            rewrite ?Hs; try change (0 <? 0) with false);
    done.
Qed.

(** A result that fails to decode is reported as a wrapped error. *)
Lemma GetDevices_decode_error (e : Error) (coll : Collection)
  (q : ListQuery) :
  0 ≤ Skip q →
  GetDevices (Undecodable e) coll q
  = Returns ([], -1, Some (Wrap e "failed to fetch device list")).
Proof.
  intros Hskip. unfold GetDevices, Aggregate, run_pipeline.
  cbn [request_error pl_match pl_results].
  rewrite run_resultsStages by done. done.
Qed.

(** Every call that returns a result without an error was made with a
    non-negative skip and returns the page cut from the ordered matches,
    with their count. *)
Lemma GetDevices_success (b : Backend) (coll : Collection) (q : ListQuery)
  (page : list Document) (total : Z) :
  GetDevices b coll q = Returns (page, total, None) →
  0 ≤ Skip q
  ∧ page = paginate (Skip q) (Limit q)
             (ordered q (filter (λ d, satisfies q d = true) coll))
  ∧ total = Z.of_nat (length (filter (λ d, satisfies q d = true) coll)).
Proof.
  intros Hrun. destruct (Z.lt_ge_cases (Skip q) 0) as [Hneg|Hskip].
  { by rewrite GetDevices_negative_skip in Hrun. }
  split; [done|]. destruct b as [|e|e].
  - rewrite GetDevices_healthy in Hrun by done. by simplify_eq.
  - discriminate Hrun.
  - rewrite GetDevices_decode_error in Hrun by done. discriminate Hrun.
Qed.

Lemma length_paginate_limit {A} (skip limit : Z) (l : list A) :
  0 < limit → Z.of_nat (length (paginate skip limit l)) ≤ limit.
Proof.
  intros Hl. unfold paginate. rewrite (proj2 (Z.ltb_lt _ _)) by done.
  rewrite length_take. lia.
Qed.

Lemma length_paginate {A} (skip limit : Z) (l : list A) :
  (length (paginate skip limit l) ≤ length l)%nat.
Proof.
  unfold paginate. destruct (0 <? limit);
    rewrite ?length_take, length_drop; lia.
Qed.


End list_query_facts.

(** ** Facts about the attribute merge *)

Section merge_facts.
Import Mongo DataStoreMongo Spec.

Lemma field_only_empty : field_only ∅.
Proof. intros p [v Hv]. by rewrite lookup_empty in Hv. Qed.

Lemma field_only_attr (upd : bsonM) (k : string) :
  field_only upd → upd !! [DbDevAttributes; k] = None.
Proof.
  intros Hf. destruct (upd !! [DbDevAttributes; k]) eqn:E; [|done].
  destruct (Hf [DbDevAttributes; k]) as (k' & f & Hp); [by rewrite E|done].
Qed.

Ltac upsertAttr_cases a :=
  unfold upsertAttr, makeAttrField; cbn [app];
  fold (default_scope a); fold (attr_key a);
  destruct (AValue a), (Description a).

(** The paths one loop step writes. *)
Lemma upsertAttr_paths (upd : bsonM) (a : DeviceAttribute) (p : Path) :
  is_Some (upsertAttr upd a !! p) →
  is_Some (upd !! p) ∨ ∃ f, p = [DbDevAttributes; attr_key a; f].
Proof.
  upsertAttr_cases a; rewrite ?lookup_insert;
    repeat case_decide; subst; eauto.
Qed.

Lemma upsertAttr_mono (upd : bsonM) (a : DeviceAttribute) (p : Path) :
  is_Some (upd !! p) → is_Some (upsertAttr upd a !! p).
Proof.
  upsertAttr_cases a; rewrite ?lookup_insert;
    repeat case_decide; subst; eauto.
Qed.

Lemma upsertAttr_scope (upd : bsonM) (a : DeviceAttribute) :
  is_Some (upsertAttr upd a !! [DbDevAttributes; attr_key a; DbDevAttributesScope]).
Proof.
  upsertAttr_cases a; rewrite ?lookup_insert;
    repeat case_decide; subst; eauto; done.
Qed.

Lemma field_only_upsertAttr (upd : bsonM) (a : DeviceAttribute) :
  field_only upd → field_only (upsertAttr upd a).
Proof.
  intros Hf p Hp. apply upsertAttr_paths in Hp as [Hp|[f ->]]; eauto.
Qed.

Lemma touched_upsertAttr (upd : bsonM) (a : DeviceAttribute) (k : string) :
  k ∈ touched (upsertAttr upd a) ↔ k = attr_key a ∨ k ∈ touched upd.
Proof.
  rewrite !elem_of_touched. split.
  - intros (p & Hp & Hk). apply upsertAttr_paths in Hp as [Hp|[f ->]].
    + right. eauto.
    + left. unfold attr_of_path in Hk. rewrite decide_True in Hk by done.
      congruence.
  - intros [->|(p & Hp & Hk)].
    + eexists. split; [apply upsertAttr_scope|].
      unfold attr_of_path. by rewrite decide_True.
    + exists p. split; [by apply upsertAttr_mono|done].
Qed.

(** One loop step, seen through [$set]: the attribute it addresses is
    merged, every other attribute is written as before. *)
Lemma set_attr_upsertAttr (upd : bsonM) (a : DeviceAttribute) (k : string)
  (old : AttrDoc) :
  field_only upd →
  set_attr (upsertAttr upd a) k old
  = if decide (k = attr_key a) then merge_attr (set_attr upd k old) a
    else set_attr upd k old.
Proof.
  intros Hf. unfold set_attr.
  rewrite !field_only_attr by auto using field_only_upsertAttr.
  unfold merge_attr, set_field. cbn [ad_value ad_description].
  destruct (decide (k = attr_key a)) as [->|Hk].
  - upsertAttr_cases a; rewrite ?lookup_insert;
      repeat case_decide; simplify_eq; done.
  - upsertAttr_cases a; rewrite ?lookup_insert;
      repeat case_decide; simplify_eq; done.
Qed.

Lemma apply_set_upsertAttr (upd : bsonM) (a : DeviceAttribute)
  (m : gmap string AttrDoc) :
  field_only upd →
  apply_set (upsertAttr upd a) m = merge_one (apply_set upd m) a.
Proof.
  intros Hf. apply map_eq. intros k. unfold merge_one.
  rewrite lookup_apply_set, set_attr_upsertAttr by done.
  destruct (decide (k = attr_key a)) as [->|Hk].
  - rewrite lookup_insert_eq, decide_True.
    + by rewrite apply_set_default.
    + apply elem_of_union_r, touched_upsertAttr. by left.
  - rewrite lookup_insert_ne, lookup_apply_set by done.
    destruct (decide (k ∈ dom m ∪ touched upd)) as [Hin|Hin].
    + rewrite decide_True; [done|].
      apply elem_of_union in Hin as [Hin|Hin]; [by apply elem_of_union_l|].
      apply elem_of_union_r, touched_upsertAttr. by right.
    + rewrite decide_False; [done|].
      intros [Hm|Ht]%elem_of_union; [by apply Hin, elem_of_union_l|].
      apply touched_upsertAttr in Ht as [?|?]; [done|].
      by apply Hin, elem_of_union_r.
Qed.

Lemma touched_empty : touched ∅ = ∅.
Proof. unfold touched. by rewrite dom_empty_L, set_omap_empty. Qed.

Lemma apply_set_empty (m : gmap string AttrDoc) : apply_set ∅ m = m.
Proof.
  apply map_eq. intros k. rewrite lookup_apply_set, touched_empty.
  destruct (decide (k ∈ dom m ∪ ∅)) as [Hin|Hin].
  - rewrite set_attr_untouched by set_solver.
    assert (is_Some (m !! k)) as [x Hx] by (apply elem_of_dom; set_solver).
    by rewrite Hx.
  - symmetry. apply not_elem_of_dom. set_solver.
Qed.

(** The loop of [makeAttrUpsert] on a batch in which every name is set:
    it returns an update document, and [$set] with that document is the
    attribute-by-attribute merge of the batch. *)
Lemma makeAttrUpsert_from_merge (attrs : DeviceAttributes) (upd : bsonM) :
  named attrs → field_only upd →
  ∃ upd',
    makeAttrUpsert_from upd attrs = inr upd'
    ∧ field_only upd'
    ∧ (∀ m, apply_set upd' m = merge_all (apply_set upd m) attrs)
    ∧ (∀ p, is_Some (upd' !! p) →
         is_Some (upd !! p)
         ∨ ∃ a f, a ∈ attrs ∧ p = [DbDevAttributes; attr_key a; f]).
Proof.
  intros Hnamed. revert upd.
  induction Hnamed as [|a attrs Ha Hnamed IH]; intros upd Hf.
  - exists upd. repeat split; eauto.
  - destruct (IH (upsertAttr upd a)) as (upd' & Hrun & Hf' & Hset & Hpaths);
      [by apply field_only_upsertAttr|].
    exists upd'. cbn [makeAttrUpsert_from]. rewrite decide_False by done.
    repeat split; try done.
    + intros m. rewrite Hset, apply_set_upsertAttr by done. done.
    + intros p Hp. apply Hpaths in Hp as [Hp|(a' & f & Ha' & ->)].
      * apply upsertAttr_paths in Hp as [Hp|[f ->]]; [by left|].
        right. exists a, f. split; [apply list_elem_of_here|done].
      * right. exists a', f. split; [by apply list_elem_of_further|done].
Qed.

Lemma makeAttrUpsert_merge (attrs : DeviceAttributes) :
  named attrs →
  ∃ upd,
    makeAttrUpsert attrs = inr upd
    ∧ field_only upd
    ∧ (∀ m, apply_set upd m = merge_all m attrs)
    ∧ (∀ p, is_Some (upd !! p) →
         ∃ a f, a ∈ attrs ∧ p = [DbDevAttributes; attr_key a; f]).
Proof.
  intros Hnamed.
  destruct (makeAttrUpsert_from_merge attrs ∅ Hnamed field_only_empty)
    as (upd & Hrun & Hf & Hset & Hpaths).
  exists upd. repeat split; try done.
  - intros m. by rewrite Hset, apply_set_empty.
  - intros p Hp. apply Hpaths in Hp as [[v Hv]|Hp]; [|done].
    by rewrite lookup_empty in Hv.
Qed.

(** A batch with an unnamed attribute yields no update document. *)
Lemma makeAttrUpsert_from_unnamed (attrs : DeviceAttributes) (upd : bsonM) :
  Exists (λ a, Name a = EmptyString) attrs →
  makeAttrUpsert_from upd attrs = inl ErrNoAttrName.
Proof.
  intros Hex. revert upd.
  induction attrs as [|a attrs IH]; intros upd; [by inversion Hex|].
  cbn [makeAttrUpsert_from].
  destruct (decide (Name a = EmptyString)) as [|Hne]; [done|].
  apply IH. by inversion Hex.
Qed.

Lemma touched_insert_attr (upd : bsonM) (k x : string) (a : AttrDoc) :
  x ∈ touched (<[[DbDevAttributes; k] := BAttr a]> upd)
  ↔ x = k ∨ x ∈ touched upd.
Proof.
  rewrite !elem_of_touched. split.
  - intros (p & Hp & Hx). rewrite lookup_insert in Hp.
    case_decide; subst; [|right; eauto].
    left. unfold attr_of_path in Hx. rewrite decide_True in Hx by done.
    congruence.
  - intros [->|(p & Hp & Hx)].
    + exists [DbDevAttributes; k]. rewrite lookup_insert_eq.
      split; [eauto|]. unfold attr_of_path. by rewrite decide_True.
    + exists p. rewrite lookup_insert. by case_decide.
Qed.

(** Writing a whole attribute that no other path of the update
    addresses. *)
Lemma apply_set_insert_attr (upd : bsonM) (k : string) (a : AttrDoc)
  (m : gmap string AttrDoc) :
  k ∉ touched upd →
  apply_set (<[[DbDevAttributes; k] := BAttr a]> upd) m
  = <[k := a]> (apply_set upd m).
Proof.
  intros Hk. apply map_eq. intros k'. rewrite lookup_apply_set.
  destruct (decide (k' = k)) as [->|Hne].
  - rewrite lookup_insert_eq, decide_True
      by (apply elem_of_union_r, touched_insert_attr; auto).
    unfold set_attr. by rewrite lookup_insert_eq.
  - rewrite lookup_insert_ne, lookup_apply_set by done.
    assert (Hsame : set_attr (<[[DbDevAttributes; k] := BAttr a]> upd) k'
                    = set_attr upd k').
    { unfold set_attr, set_field.
      rewrite !lookup_insert_ne by congruence. done. }
    rewrite Hsame.
    destruct (decide (k' ∈ dom m ∪ touched upd)) as [Hin|Hin].
    + rewrite decide_True; [done|].
      apply elem_of_union in Hin as [Hin|Hin];
        [by apply elem_of_union_l
        |apply elem_of_union_r, touched_insert_attr; auto].
    + rewrite decide_False; [done|].
      intros [Hm|[?|?]%touched_insert_attr]%elem_of_union; [|done|];
        apply Hin; [by apply elem_of_union_l|by apply elem_of_union_r].
Qed.

(** The attributes an update document built from a batch addresses. *)
Lemma touched_batch (upd : bsonM) (attrs : DeviceAttributes) (k : string) :
  (∀ p, is_Some (upd !! p) →
     ∃ a f, a ∈ attrs ∧ p = [DbDevAttributes; attr_key a; f]) →
  k ∈ touched upd → ∃ a, a ∈ attrs ∧ k = attr_key a.
Proof.
  intros Hpaths (p & Hp & Hk)%elem_of_touched.
  destruct (Hpaths p Hp) as (a & f & Ha & ->).
  exists a. split; [done|].
  unfold attr_of_path in Hk. rewrite decide_True in Hk by done. congruence.
Qed.

Lemma updated_created_ne : updated_key ≠ created_key.
Proof. intros H. vm_compute in H. discriminate. Qed.

Lemma stampedUpdate_paths (now : Z) (upd : bsonM) (attrs : DeviceAttributes)
  (p : Path) :
  (∀ p, is_Some (upd !! p) →
     ∃ a f, a ∈ attrs ∧ p = [DbDevAttributes; attr_key a; f]) →
  p ∈ update_paths (stampedUpdate now upd) →
  p = [DbDevAttributes; updated_key] ∨ p = [DbDevAttributes; created_key]
  ∨ ∃ a f, a ∈ attrs ∧ p = [DbDevAttributes; attr_key a; f].
Proof.
  intros Hpaths. unfold update_paths, stampedUpdate.
  cbn [op_set op_setOnInsert op_unset].
  rewrite dom_insert_L, dom_singleton_L.
  intros [[[Hp%elem_of_singleton|Hp]%elem_of_union
          |Hp%elem_of_singleton]%elem_of_union|Hp]%elem_of_union.
  - by left.
  - right; right. apply Hpaths. by apply elem_of_dom.
  - right; by left.
  - by apply not_elem_of_empty in Hp.
Qed.

(** The store accepts the update of a batch that does not itself address
    the two time stamps. *)
Lemma stampedUpdate_accepted (now : Z) (upd : bsonM)
  (attrs : DeviceAttributes) :
  (∀ p, is_Some (upd !! p) →
     ∃ a f, a ∈ attrs ∧ p = [DbDevAttributes; attr_key a; f]) →
  unreserved attrs →
  ¬ conflicting (stampedUpdate now upd).
Proof.
  intros Hpaths Hres.
  assert (Hkey : ∀ a, a ∈ attrs →
            attr_key a ≠ updated_key ∧ attr_key a ≠ created_key).
  { by apply Forall_forall. }
  intros [(p & Hp & q & Hq & Hne & [k Hk])|[Hc|Hc]].
  - apply (stampedUpdate_paths now upd attrs) in Hp; [|done].
    apply (stampedUpdate_paths now upd attrs) in Hq; [|done].
    destruct Hp as [->|[->|(a & f & Ha & ->)]];
      destruct Hq as [->|[->|(a' & f' & Ha' & ->)]];
      cbn [app] in Hk; simplify_eq;
      try (by apply updated_created_ne);
      try (by (destruct (Hkey _ Ha'); congruence)).
  - apply Hc. apply set_eq. intros p.
    split; [|by intros ?%not_elem_of_empty].
    intros [H1 H2]%elem_of_intersection.
    cbn [op_set op_setOnInsert stampedUpdate] in H1, H2.
    rewrite dom_singleton_L in H2. apply elem_of_singleton in H2 as ->.
    rewrite dom_insert_L in H1.
    apply elem_of_union in H1 as [H1%elem_of_singleton|H1].
    + unfold createdField, updatedField in H1. simplify_eq.
    + apply elem_of_dom in H1. apply Hpaths in H1 as (a & f & _ & H1).
      discriminate H1.
  - apply Hc. cbn [op_unset stampedUpdate]. set_solver.
Qed.

Section stamped.
Context (now : Z) (attrs : DeviceAttributes) (upd : bsonM).
Hypothesis Hpaths :
  ∀ p, is_Some (upd !! p) →
    ∃ a f, a ∈ attrs ∧ p = [DbDevAttributes; attr_key a; f].
Hypothesis Hset : ∀ m, apply_set upd m = merge_all m attrs.
Hypothesis Hres : unreserved attrs.

Lemma stamps_untouched :
  (updated_key ∉ touched upd) ∧ (created_key ∉ touched upd).
Proof.
  split; intros (a & Ha & Hk)%(touched_batch upd attrs); try done;
    apply (proj1 (Forall_forall _ _) Hres) in Ha as [? ?]; congruence.
Qed.

(** The update as applied to a stored record: the batch is merged and the
    [updated] stamp set. *)
Lemma apply_stampedUpdate_stored (d : Document) :
  apply_update (stampedUpdate now upd) false d
  = mkDocument (doc_id d)
      (<[updated_key := stamp AttrNameUpdated now]>
         (merge_all (doc_attributes d) attrs)).
Proof.
  unfold apply_update, stampedUpdate.
  cbn [op_set op_setOnInsert op_unset]. rewrite apply_unset_empty.
  unfold updatedField. fold updated_key.
  rewrite apply_set_insert_attr by apply stamps_untouched.
  by rewrite Hset.
Qed.

(** The update as applied on insertion: the [created] stamp comes with
    it. *)
Lemma apply_stampedUpdate_inserted (id : DeviceID) :
  apply_update (stampedUpdate now upd) true (mkDocument id ∅)
  = mkDocument id
      (<[created_key := stamp AttrNameCreated now]>
         (<[updated_key := stamp AttrNameUpdated now]>
            (merge_all ∅ attrs))).
Proof.
  unfold apply_update, stampedUpdate.
  cbn [op_set op_setOnInsert op_unset doc_id doc_attributes].
  rewrite apply_unset_empty.
  unfold updatedField, createdField. fold updated_key. fold created_key.
  rewrite <- insert_union_singleton_r.
  - rewrite !apply_set_insert_attr.
    + by rewrite Hset.
    + apply stamps_untouched.
    + intros [Hk|Hk]%touched_insert_attr.
      * by destruct updated_created_ne.
      * by apply stamps_untouched in Hk.
  - rewrite lookup_insert_ne.
    + destruct (upd !! [DbDevAttributes; created_key]) eqn:E; [|done].
      destruct (Hpaths [DbDevAttributes; created_key]) as (a & f & _ & Hp);
        [by rewrite E|discriminate Hp].
    + intros H. simplify_eq.
Qed.

Lemma update_first_upsert (id : DeviceID) (coll : Collection) :
  match update_first (QId id) (stampedUpdate now upd) coll with
  | (coll', Some _) => coll' = upsert now id attrs coll
  | (_, None) =>
      (coll ++ [apply_update (stampedUpdate now upd) true (mkDocument id ∅)])%list
      = upsert now id attrs coll
  end.
Proof.
  induction coll as [|d rest IH].
  - cbn [update_first upsert app]. by rewrite apply_stampedUpdate_inserted.
  - cbn [update_first upsert matches].
    destruct (decide (doc_id d = id)) as [Hid|Hid].
    + rewrite bool_decide_eq_true_2 by done.
      rewrite apply_stampedUpdate_stored. by rewrite Hid.
    + rewrite bool_decide_eq_false_2 by done.
      destruct (update_first (QId id) (stampedUpdate now upd) rest)
        as [rest' [changed|]].
      * by rewrite IH.
      * cbn [app]. by rewrite IH.
Qed.

End stamped.

(** [UpsertAttributes] on a healthy backend, for a batch in which every
    name is set and which leaves the two time stamps to the engine:
    the call succeeds and the store holds the upsert of the batch. *)
Lemma UpsertAttributes_upsert (now : Z) (coll : Collection) (id : DeviceID)
  (attrs : DeviceAttributes) :
  named attrs → unreserved attrs →
  UpsertAttributes Healthy now coll id attrs
  = (None, upsert now id attrs coll).
Proof.
  intros Hnamed Hres.
  destruct (makeAttrUpsert_merge attrs Hnamed)
    as (upd & Hrun & Hf & Hset & Hpaths).
  unfold UpsertAttributes, UpdateOne. rewrite Hrun. cbn [request_error].
  rewrite decide_False by (by apply (stampedUpdate_accepted now upd attrs)).
  pose proof (update_first_upsert now attrs upd Hpaths Hset Hres id coll) as H.
  destruct (update_first (QId id) (stampedUpdate now upd) coll)
    as [coll' [changed|]].
  - by rewrite H.
  - cbn [query_id]. by rewrite H.
Qed.

Lemma find_doc_upsert (now : Z) (id : DeviceID) (attrs : DeviceAttributes)
  (coll : Collection) :
  find_doc id (upsert now id attrs coll)
  = Some (mkDocument id
            match find_doc id coll with
            | Some d =>
                <[updated_key := stamp AttrNameUpdated now]>
                  (merge_all (doc_attributes d) attrs)
            | None =>
                <[created_key := stamp AttrNameCreated now]>
                  (<[updated_key := stamp AttrNameUpdated now]>
                     (merge_all ∅ attrs))
            end).
Proof.
  induction coll as [|d rest IH]; cbn [upsert find_doc].
  - cbn [doc_id]. by rewrite decide_True.
  - destruct (decide (doc_id d = id)) as [Hid|Hid]; cbn [find_doc doc_id].
    + by rewrite decide_True.
    + by rewrite decide_False.
Qed.


Lemma makeAttrUpsert_from_named (attrs : DeviceAttributes) (upd upd' : bsonM) :
  makeAttrUpsert_from upd attrs = inr upd' →
  named attrs
  ∧ (∀ p, is_Some (upd !! p) → is_Some (upd' !! p))
  ∧ (∀ a, a ∈ attrs →
       is_Some (upd' !! [DbDevAttributes; attr_key a; DbDevAttributesScope])).
Proof.
  revert upd. induction attrs as [|a attrs IH]; intros upd.
  - intros [= ->]. split; [constructor|]. split; [done|].
    intros a Ha. by apply not_elem_of_nil in Ha.
  - cbn [makeAttrUpsert_from].
    destruct (decide (Name a = EmptyString)) as [|Hne]; [done|].
    intros (Hnamed & Hmono & Hscope)%IH. split; [by constructor|]. split.
    + intros p Hp. by apply Hmono, upsertAttr_mono.
    + intros a' [->|Ha']%elem_of_cons; [|by apply Hscope].
      apply Hmono, upsertAttr_scope.
Qed.

(** The store refuses the update of a batch that addresses one of the two
    time stamps. *)
Lemma stampedUpdate_refused (now : Z) (upd : bsonM)
  (attrs : DeviceAttributes) :
  (∀ a, a ∈ attrs →
     is_Some (upd !! [DbDevAttributes; attr_key a; DbDevAttributesScope])) →
  ¬ conflicting (stampedUpdate now upd) → unreserved attrs.
Proof.
  intros Hscope Hok. apply Forall_forall. intros a Ha.
  specialize (Hscope a Ha).
  assert (Hq : [DbDevAttributes; attr_key a; DbDevAttributesScope]
               ∈ update_paths (stampedUpdate now upd)).
  { unfold update_paths, stampedUpdate. cbn [op_set op_setOnInsert op_unset].
    apply elem_of_union_l, elem_of_union_l. rewrite dom_insert_L.
    apply elem_of_union_r. by apply elem_of_dom. }
  split; intros Hk; apply Hok; left.
  - exists [DbDevAttributes; updated_key]. split.
    { unfold update_paths, stampedUpdate. cbn [op_set op_setOnInsert op_unset].
      apply elem_of_union_l, elem_of_union_l. rewrite dom_insert_L.
      apply elem_of_union_l. by apply elem_of_singleton. }
    eexists. split; [exact Hq|]. split; [discriminate|].
    rewrite Hk. by exists [DbDevAttributesScope].
  - exists [DbDevAttributes; created_key]. split.
    { unfold update_paths, stampedUpdate. cbn [op_set op_setOnInsert op_unset].
      apply elem_of_union_l, elem_of_union_r. rewrite dom_singleton_L.
      by apply elem_of_singleton. }
    eexists. split; [exact Hq|]. split; [discriminate|].
    rewrite Hk. by exists [DbDevAttributesScope].
Qed.

(** Every call of [UpsertAttributes] that returns no error was made with
    a batch in which every name is set and which leaves the two time
    stamps to the engine, and it leaves the upsert of the batch in the
    store. *)
Lemma UpsertAttributes_success (b : Backend) (now : Z)
  (coll coll' : Collection) (id : DeviceID) (attrs : DeviceAttributes) :
  UpsertAttributes b now coll id attrs = (None, coll') →
  named attrs ∧ unreserved attrs ∧ coll' = upsert now id attrs coll.
Proof.
  unfold UpsertAttributes, UpdateOne.
  destruct (makeAttrUpsert attrs) as [err|upd] eqn:Hrun; [done|].
  destruct (request_error b); [done|].
  destruct (decide (conflicting (stampedUpdate now upd))) as [|Hok]; [done|].
  pose proof (makeAttrUpsert_from_named attrs ∅ upd Hrun)
    as (Hnamed & _ & Hscope).
  pose proof (stampedUpdate_refused now upd attrs Hscope Hok) as Hres.
  destruct (makeAttrUpsert_merge attrs Hnamed)
    as (upd0 & Hrun0 & _ & Hset & Hpaths).
  rewrite Hrun in Hrun0. injection Hrun0 as <-.
  pose proof (update_first_upsert now attrs upd Hpaths Hset Hres id coll) as H.
  destruct (update_first (QId id) (stampedUpdate now upd) coll)
    as [c [changed|]]; cbn [query_id]; intros [= <-]; by rewrite H.
Qed.

End merge_facts.

(** ** The claims on the attribute merge engine *)

Section merge_claims.
Import Mongo DataStoreMongo Spec Sample.


Lemma named_sn_value : named [sn_value].
Proof. repeat constructor. discriminate. Defined.

Lemma unreserved_sn_value : unreserved [sn_value].
Proof. repeat constructor; discriminate. Defined.




(** C5. Whatever the backend, the clock, the stored devices and the
    device id: a batch holding an attribute with an empty name makes
    [UpsertAttributes] return [ErrNoAttrName] with the collection as it
    was, and makes [AddDevice] return that error, wrapped, with the
    collection as it was. *)
Theorem UpsertAttributes_unnamed (b : Backend) (now : Z) (coll : Collection)
  (id : DeviceID) (attrs : DeviceAttributes) :
  Exists (λ a, Name a = EmptyString) attrs →
  UpsertAttributes b now coll id attrs = (Some ErrNoAttrName, coll)
  ∧ ∀ group : GroupName,
      AddDevice b now coll (mkDevice id attrs group)
      = (Some (Wrap ErrNoAttrName "failed to store device"), coll).
Proof.
  intros Hex.
  assert (Hup : ∀ attrs', Exists (λ a, Name a = EmptyString) attrs' →
            UpsertAttributes b now coll id attrs' = (Some ErrNoAttrName, coll)).
  { intros attrs' Hex'. unfold UpsertAttributes, makeAttrUpsert.
    by rewrite makeAttrUpsert_from_unnamed. }
  split; [by apply Hup|].
  intros group. unfold AddDevice. cbn [ID Attributes Group].
  rewrite Hup; [done|].
  destruct (decide (group ≠ EmptyString)); [|done].
  apply Exists_app. by left.
Qed.

Lemma UpsertAttributes_unnamed_witness :
  Exists (λ a, Name a = EmptyString) [sn_value; unnamed_attr]
  ∧ UpsertAttributes Healthy 10 [] "0099" [sn_value; unnamed_attr]
    = (Some ErrNoAttrName, []).
Proof.
  assert (H : Exists (λ a, Name a = EmptyString) [sn_value; unnamed_attr]).
  { apply Exists_cons_tl, Exists_cons_hd. reflexivity. }
  split; [exact H|].
  exact (proj1 (UpsertAttributes_unnamed Healthy 10 [] "0099"
                  [sn_value; unnamed_attr] H)).
Defined.

(** C10. With an empty attribute list [UpsertAttributes] succeeds on a
    healthy backend and still upserts: a device without a record gets one
    holding exactly the [created] and [updated] stamps of the call; a
    device with a record has its [updated] stamp set to that of the call
    and every other attribute as it was. *)
Theorem UpsertAttributes_empty (now : Z) (coll : Collection) (id : DeviceID) :
  ∃ coll' d',
    UpsertAttributes Healthy now coll id [] = (None, coll')
    ∧ find_doc id coll' = Some d'
    ∧ doc_id d' = id
    ∧ match find_doc id coll with
      | None =>
          doc_attributes d'
          = <[created_key := stamp AttrNameCreated now]>
              {[updated_key := stamp AttrNameUpdated now]}
      | Some d =>
          doc_attributes d'
          = <[updated_key := stamp AttrNameUpdated now]> (doc_attributes d)
      end.
Proof.
  eexists _, _. split.
  { apply UpsertAttributes_upsert; constructor. }
  split; [apply find_doc_upsert|]. split; [done|].
  cbn [doc_attributes merge_all foldl]. by destruct (find_doc id coll).
Qed.

End merge_claims.

(** ** Facts about group operations *)

Section group_facts.
Import Mongo DataStoreMongo Spec.

Lemma apply_unset_attr (k : string) (m : gmap string AttrDoc) :
  apply_unset {[ [DbDevAttributes; k] ]} m = delete k m.
Proof.
  apply map_eq. intros k'. unfold apply_unset.
  destruct (decide (k' = k)) as [->|Hne].
  - rewrite lookup_delete_eq. apply map_lookup_filter_None. right.
    intros a _ Hnot. apply Hnot. cbn [fst]. by apply elem_of_singleton.
  - rewrite lookup_delete_ne by done.
    destruct (m !! k') as [a|] eqn:E.
    + apply map_lookup_filter_Some. split; [done|].
      cbn [fst]. intros H%elem_of_singleton. congruence.
    + apply map_lookup_filter_None. by left.
Qed.

Lemma unsetGroup_accepted : ¬ conflicting unsetGroup.
Proof.
  unfold conflicting, unsetGroup, update_paths.
  cbn [op_set op_setOnInsert op_unset]. rewrite !dom_empty_L.
  intros [(p & Hp & q & Hq & Hne & _)|[Hc|Hc]].
  - apply Hne. set_solver.
  - apply Hc. set_solver.
  - apply Hc. set_solver.
Qed.

Lemma apply_unsetGroup (d : Document) :
  apply_update unsetGroup false d
  = mkDocument (doc_id d) (delete group_key (doc_attributes d)).
Proof.
  unfold apply_update, unsetGroup. cbn [op_set op_unset].
  rewrite apply_set_empty. unfold DbDevAttributesGroup. fold group_key.
  by rewrite apply_unset_attr.
Qed.

Lemma matches_unset_filter (id : DeviceID) (g : GroupName) (d : Document) :
  matches d (QDoc [QId id;
                   QField DbDevAttributesGroupValue (CLit (VString g))])
  = bool_decide (holds_group id g d).
Proof.
  cbn [matches forallb eval_cond].
  unfold DbDevAttributesGroupValue, DbDevAttributesGroup. cbn [app].
  rewrite eval_eq_value, andb_true_r. unfold holds_group, group_value, attr_value.
  by rewrite bool_decide_and.
Qed.

Lemma holds_group_changed (id : DeviceID) (g : GroupName) (d : Document) :
  holds_group id g d → apply_update unsetGroup false d ≠ d.
Proof.
  intros [_ Hg] Heq. rewrite apply_unsetGroup in Heq.
  unfold group_value, attr_value in Hg. fold group_key in Hg.
  destruct (doc_attributes d !! group_key) as [a|] eqn:E; [|done].
  apply (f_equal (λ x, doc_attributes x !! group_key)) in Heq.
  cbn [doc_attributes] in Heq. rewrite lookup_delete_eq in Heq. congruence.
Qed.

Lemma filter_holds_nil (id : DeviceID) (g : GroupName) (coll : Collection) :
  ¬ Exists (holds_group id g) coll →
  filter (holds_group id g) coll = [] ∧ map (clear_group id g) coll = coll.
Proof.
  intros Hno. apply not_Exists_Forall in Hno; [|apply _].
  induction Hno as [|d rest Hd Hno IH]; [done|].
  destruct IH as [IH1 IH2]. cbn in Hd. split.
  - by rewrite filter_cons_False.
  - cbn [map]. rewrite IH2. unfold clear_group. by rewrite decide_False.
Qed.

Lemma update_all_clear (id : DeviceID) (g : GroupName) (coll : Collection) :
  update_all (QDoc [QId id;
                    QField DbDevAttributesGroupValue (CLit (VString g))])
             unsetGroup coll
  = map (clear_group id g) coll.
Proof.
  unfold update_all. apply map_ext. intros d.
  rewrite matches_unset_filter. unfold clear_group.
  destruct (decide (holds_group id g d)) as [H|H].
  - by rewrite bool_decide_eq_true_2, apply_unsetGroup.
  - by rewrite bool_decide_eq_false_2.
Qed.

Lemma setGroup_accepted (g : GroupName) : ¬ conflicting (setGroup g).
Proof.
  unfold conflicting, setGroup, update_paths.
  cbn [op_set op_setOnInsert op_unset].
  rewrite dom_singleton_L, !dom_empty_L.
  intros [(p & Hp & q & Hq & Hne & _)|[Hc|Hc]].
  - apply Hne. set_solver.
  - apply Hc. set_solver.
  - apply Hc. set_solver.
Qed.

Lemma apply_setGroup (g : GroupName) (d : Document) :
  apply_update (setGroup g) false d = set_group g d.
Proof.
  unfold apply_update, setGroup, set_group. cbn [op_set op_unset].
  rewrite apply_unset_empty. unfold DbDevAttributesGroup. fold group_key.
  rewrite <- insert_empty, apply_set_insert_attr.
  - by rewrite apply_set_empty.
  - rewrite touched_empty. apply not_elem_of_empty.
Qed.

Lemma update_first_setGroup (id : DeviceID) (g : GroupName)
  (coll : Collection) :
  update_first (QId id) (setGroup g) coll
  = (assign_group id g coll,
     (λ d, bool_decide (set_group g d ≠ d)) <$> find_doc id coll).
Proof.
  induction coll as [|d rest IH]; [done|].
  cbn [update_first assign_group find_doc matches].
  destruct (decide (doc_id d = id)) as [Hid|Hid].
  - rewrite bool_decide_eq_true_2 by done. by rewrite apply_setGroup.
  - rewrite bool_decide_eq_false_2 by done. by rewrite IH.
Qed.

Lemma assign_group_absent (id : DeviceID) (g : GroupName) (coll : Collection) :
  find_doc id coll = None → assign_group id g coll = coll.
Proof.
  induction coll as [|d rest IH]; [done|]. cbn [find_doc assign_group].
  destruct (decide (doc_id d = id)); [done|]. intros H. by rewrite IH.
Qed.

Lemma assign_group_same (id : DeviceID) (g : GroupName) (coll : Collection)
  (d : Document) :
  find_doc id coll = Some d → set_group g d = d → assign_group id g coll = coll.
Proof.
  induction coll as [|x rest IH]; [done|]. cbn [find_doc assign_group].
  destruct (decide (doc_id x = id)).
  - intros [= ->] ->. done.
  - intros H1 H2. by rewrite IH.
Qed.

(** What [UpdateDeviceGroup] does on a healthy backend: the error follows
    the modified count of the store, which is zero for a missing device
    and also for a device whose record already holds the attribute being
    written. *)
Lemma UpdateDeviceGroup_healthy (coll : Collection) (id : DeviceID)
  (g : GroupName) :
  UpdateDeviceGroup Healthy coll id g
  = match find_doc id coll with
    | None => (Some ErrDevNotFound, coll)
    | Some d =>
        if decide (set_group g d = d) then (Some ErrDevNotFound, coll)
        else (None, assign_group id g coll)
    end.
Proof.
  unfold UpdateDeviceGroup, UpdateOne. cbn [request_error].
  change (encode_attr _) with (group_attr g). fold (setGroup g).
  rewrite decide_False by apply setGroup_accepted.
  rewrite update_first_setGroup.
  destruct (find_doc id coll) as [d|] eqn:E; cbn [fmap option_fmap option_map].
  - destruct (decide (set_group g d = d)) as [Hsame|Hdiff].
    + rewrite bool_decide_eq_false_2 by (by intros H). cbn [b2z ModifiedCount].
      change (0 <? 0) with false. cbv iota.
      by rewrite (assign_group_same id g coll d).
    + by rewrite bool_decide_eq_true_2.
  - done.
Qed.

End group_facts.

(** ** The claims on group operations *)

Section group_claims.
Import Mongo DataStoreMongo Spec Sample.

(** C7. [UnsetDeviceGroup] is a strict compare-and-clear: when a record
    of the device holds the expected group value, the group attribute is
    removed from it and no error is returned; in every other case (no
    record of the device, another group value, no group attribute) it
    returns [ErrDevNotFound] and the collection is as it was. *)
Theorem UnsetDeviceGroup_compare_and_clear (coll : Collection)
  (id : DeviceID) (g : GroupName) :
  UnsetDeviceGroup Healthy coll id g
  = if decide (Exists (holds_group id g) coll)
    then (None, map (clear_group id g) coll)
    else (Some ErrDevNotFound, coll).
Proof.
  unfold UnsetDeviceGroup, UpdateMany. cbn [request_error].
  fold unsetGroup. rewrite decide_False by apply unsetGroup_accepted.
  cbn [ModifiedCount]. rewrite update_all_clear.
  rewrite (list_filter_iff (λ d, matches d _ = true) (holds_group id g) coll)
    by (intros d; rewrite matches_unset_filter; apply bool_decide_eq_true).
  destruct (decide (Exists (holds_group id g) coll)) as [Hex|Hno].
  - apply Exists_exists in Hex as (d & Hd & Hh).
    assert (Hin : d ∈ filter (λ d, apply_update unsetGroup false d ≠ d)
                     (filter (holds_group id g) coll)).
    { apply list_elem_of_filter. split; [by eapply holds_group_changed|].
      by apply list_elem_of_filter. }
    destruct (filter _ (filter (holds_group id g) coll)) as [|x l];
      [by apply not_elem_of_nil in Hin|].
    rewrite (proj2 (Z.leb_gt _ _)); [done|]. cbn [length]. lia.
  - destruct (filter_holds_nil id g coll Hno) as [-> ->]. done.
Qed.

(** C6. The failing case of [UpdateDeviceGroup]: when an assignment has
    succeeded, so that the device exists and holds the group, assigning the
    same group again returns [ErrDevNotFound] (the store reports no
    modified record), where the claim promises no error for an existing
    device. *)
Theorem UpdateDeviceGroup_repeated (coll coll' : Collection) (id : DeviceID)
  (g : GroupName) :
  UpdateDeviceGroup Healthy coll id g = (None, coll') →
  is_Some (find_doc id coll')
  ∧ UpdateDeviceGroup Healthy coll' id g = (Some ErrDevNotFound, coll').
Proof.
  rewrite !UpdateDeviceGroup_healthy.
  destruct (find_doc id coll) as [d|] eqn:E; [|done].
  destruct (decide (set_group g d = d)) as [|Hdiff]; [done|].
  intros [= <-].
  assert (Hfind : ∀ c, find_doc id c = Some d →
            find_doc id (assign_group id g c) = Some (set_group g d)).
  { induction c as [|x rest IH]; [done|]. cbn [find_doc assign_group].
    destruct (decide (doc_id x = id)) as [Hid|Hid]; cbn [find_doc].
    - intros [= ->]. cbn [set_group doc_id]. by rewrite decide_True.
    - rewrite decide_False by done. apply IH. }
  rewrite (Hfind coll E). split; [eauto|].
  assert (Hidem : set_group g (set_group g d) = set_group g d).
  { unfold set_group. cbn [doc_id doc_attributes]. by rewrite insert_insert_eq. }
  rewrite decide_True by done. done.
Qed.

Lemma UpdateDeviceGroup_repeated_witness :
  UpdateDeviceGroup Healthy [mkDocument "1" ∅] "1" "abc"
  = (None, store_with_group)
  ∧ is_Some (find_doc "1" store_with_group)
  ∧ UpdateDeviceGroup Healthy store_with_group "1" "abc"
    = (Some ErrDevNotFound, store_with_group).
Proof.
  assert (H : UpdateDeviceGroup Healthy [mkDocument "1" ∅] "1" "abc"
              = (None, store_with_group)) by (vm_compute; reflexivity).
  split; [exact H|].
  exact (UpdateDeviceGroup_repeated [mkDocument "1" ∅] store_with_group
           "1" "abc" H).
Defined.





End group_claims.

(** ** The claims on list queries *)

Section list_query_claims.
Import Mongo DataStoreMongo Spec Sample.





(** The stored number 4 is matched by the filter that carries it as the
    string [4.0] and as the number 4. *)
Example GetDevices_float_scenario :
  ∃ d, GetDevices Healthy store_with_float float_query = Returns ([d], 1, None)
       ∧ doc_id d = "4".
Proof. eexists. split; [vm_compute; reflexivity|reflexivity]. Qed.

(** C2. With a non-negative skip the call on a healthy backend returns
    a page and a count; and whenever [GetDevices] returns a page and a
    count, the page is obtained from the ordered matches by dropping
    [skip] devices first and keeping [limit] devices after that, a
    non-positive limit keeping all; the page has at most [limit] devices
    when the limit is positive; the count is the number of devices that
    satisfy the filters and group constraints, is the count returned for
    every other skip and limit, and is at least the length of the page. *)
Theorem GetDevices_pagination (coll : Collection) (q : ListQuery) :
  let matched := filter (λ d, satisfies q d = true) coll in
  (0 ≤ Skip q →
   ∃ page total, GetDevices Healthy coll q = Returns (page, total, None))
  ∧ ∀ b page total,
      GetDevices b coll q = Returns (page, total, None) →
      page = (if 0 <? Limit q then take (Z.to_nat (Limit q)) else id)
               (drop (Z.to_nat (Skip q)) (ordered q matched))
      ∧ (0 < Limit q → Z.of_nat (length page) ≤ Limit q)
      ∧ total = Z.of_nat (length matched)
      ∧ Z.of_nat (length page) ≤ total
      ∧ ∀ b' skip' limit' page' total',
          GetDevices b' coll
            (mkListQuery skip' limit' (Filters q) (QSort q) (HasGroup q)
                         (QGroupName q))
          = Returns (page', total', None) →
          total' = total.
Proof.
  intros matched. split.
  { intros Hskip. eexists _, _. by apply GetDevices_healthy. }
  intros b page total (Hskip & -> & ->)%GetDevices_success. fold matched.
  split; [unfold paginate; by destruct (0 <? Limit q)|].
  split; [apply length_paginate_limit|].
  split; [done|]. split.
  - pose proof (length_paginate (Skip q) (Limit q) (ordered q matched)) as H.
    rewrite (Permutation_length (ordered_perm q matched)) in H. lia.
  - by intros b' skip' limit' page' total' (_ & _ & ->)%GetDevices_success.
Qed.

Lemma GetDevices_pagination_witness :
  GetDevices Healthy store_with_float float_query
  = Returns (float_page.1, float_page.2, None)
  ∧ (0 < Limit float_query →
     Z.of_nat (length float_page.1) ≤ Limit float_query)
  ∧ Z.of_nat (length float_page.1) ≤ float_page.2.
Proof.
  assert (Hrun : GetDevices Healthy store_with_float float_query
                 = Returns (float_page.1, float_page.2, None))
    by (vm_compute; reflexivity).
  split; [exact Hrun|].
  destruct (proj2 (GetDevices_pagination store_with_float float_query)
              Healthy float_page.1 float_page.2 Hrun)
    as (_ & Hlim & _ & Hle & _).
  split; [exact Hlim|exact Hle].
Defined.

(** The part of C8 on empty matches: they are a normal result. *)
Lemma GetDevices_no_match (coll : Collection) (q : ListQuery) :
  0 ≤ Skip q → Forall (λ d, satisfies q d = false) coll →
  GetDevices Healthy coll q = Returns ([], 0, None).
Proof.
  intros Hskip Hno. rewrite GetDevices_healthy by done.
  assert (Hnil : filter (λ d, satisfies q d = true) coll = []).
  { induction Hno as [|d rest Hd Hno IH]; [done|].
    rewrite filter_cons_False by congruence. done. }
  rewrite Hnil. unfold paginate, ordered, sort_docs. cbn [foldr length].
  destruct (QSort q), (0 <? Limit q); by rewrite ?drop_nil, ?take_nil.
Qed.

(** C8. The failing case of [GetDevices]: when the aggregation request
    itself fails, the call does not return a wrapped error; the error of
    [Aggregate] is dropped and the nil cursor is dereferenced. *)
Theorem GetDevices_aggregate_error (e : Error) (coll : Collection)
  (q : ListQuery) :
  GetDevices (Unavailable e) coll q = Panics.
Proof. reflexivity. Qed.

End list_query_claims.

(** ** The scenarios of the specification, run on the model *)

Section scenarios.
Import Mongo DataStoreMongo Spec Sample.

(** Submitting [{name: sn, value: X}] and then [{name: sn, description: d}]
    leaves an attribute with both. *)
Example field_additive_scenario :
  ∃ d, find_doc "0099" store_with_sn_twice = Some d
       ∧ doc_attributes d !! "inventory-sn"
         = Some (mkAttrDoc (Some (VString "inventory")) (Some (VString "sn"))
                           (Some (VString "X")) (Some (VString "d"))).
Proof. eexists. split; vm_compute; reflexivity. Qed.

(** Merging twice for a new device: [created] keeps the time of the first
    call, [updated] takes the time of the second. *)
Example created_first_write_wins_scenario :
  ∃ d, find_doc "0099" store_with_sn_twice = Some d
       ∧ doc_attributes d !! created_key = Some (stamp AttrNameCreated 10)
       ∧ doc_attributes d !! updated_key = Some (stamp AttrNameUpdated 20).
Proof. eexists. repeat split; vm_compute; reflexivity. Qed.

Example group_listing_scenario :
  GetDevicesByGroup Healthy three_devices "g" 0 1 = Returns (["2"], 2, None)
  ∧ GetDevicesByGroup Healthy three_devices "missing" 0 0
    = Returns ([], -1, Some ErrGroupNotFound).
Proof. split; vm_compute; reflexivity. Qed.

(** A stale expected value does not remove the current group. *)
Example stale_unassign_scenario :
  UnsetDeviceGroup Healthy three_devices "2" "old"
  = (Some ErrDevNotFound, three_devices).
Proof. vm_compute. reflexivity. Qed.

Example has_group_scenario :
  (∃ page, GetDevices Healthy three_devices
             (mkListQuery 0 20 [] None (Some true) EmptyString)
           = Returns (page, 2, None)
           ∧ map doc_id page = ["2"; "3"])
  ∧ (∃ page, GetDevices Healthy three_devices
               (mkListQuery 0 20 [] None (Some false) EmptyString)
             = Returns (page, 1, None)
             ∧ map doc_id page = ["1"]).
Proof. split; eexists; split; vm_compute; reflexivity. Qed.

(** Sorting by [score] descending with limit 2: the device scoring 5,
    then the device scoring 4. *)
Example sort_descending_scenario :
  ∃ page, GetDevices Healthy scored_devices
            (mkListQuery 0 2 [] (Some (mkSort "inventory" "score" false))
                         None EmptyString)
          = Returns (page, 3, None)
          ∧ map doc_id page = ["c"; "a"].
Proof. eexists. split; vm_compute; reflexivity. Qed.

(** A batch that itself addresses the [updated] stamp is refused by the
    store, and nothing is written. *)
Example reserved_stamp_scenario :
  UpsertAttributes Healthy 20 store_with_sn "0099"
    [mkAttr AttrScopeSystem AttrNameUpdated (Some (VString "X")) None]
  = (Some (ErrBackend "conflicting update paths"), store_with_sn).
Proof. vm_compute. reflexivity. Qed.

(** A negative skip is refused by the store; the call does not return. *)
Example negative_skip_scenario :
  GetDevices Healthy three_devices (mkListQuery (-1) 0 [] None None EmptyString)
  = Panics.
Proof. reflexivity. Qed.

End scenarios.

(** ** Further properties of the attribute merge engine *)

Section merge_properties.
Import Mongo DataStoreMongo Spec Sample.

(** A call of [UpsertAttributes] either writes the upsert of the batch or
    returns an error and leaves the collection as it was. *)
Lemma UpsertAttributes_cases (b : Backend) (now : Z) (coll : Collection)
  (id : DeviceID) (attrs : DeviceAttributes) :
  UpsertAttributes b now coll id attrs = (None, upsert now id attrs coll)
  ∨ ∃ e, UpsertAttributes b now coll id attrs = (Some e, coll).
Proof.
  destruct (UpsertAttributes b now coll id attrs) as [[e|] c] eqn:E.
  - right. exists e. f_equal. revert E. unfold UpsertAttributes, UpdateOne.
    destruct (makeAttrUpsert attrs); [by intros [= _ <-]|].
    destruct (request_error b); [by intros [= _ <-]|].
    destruct (decide (conflicting _)); [by intros [= _ <-]|].
    destruct (update_first _ _ coll) as [c' [ch|]]; cbn [query_id]; done.
  - left. by apply UpsertAttributes_success in E as (_ & _ & ->).
Qed.

Lemma find_doc_upsert_other (now : Z) (id id' : DeviceID)
  (attrs : DeviceAttributes) (coll : Collection) :
  id' ≠ id → find_doc id' (upsert now id attrs coll) = find_doc id' coll.
Proof.
  intros Hne. induction coll as [|d rest IH]; cbn [upsert find_doc].
  - cbn [doc_id]. by rewrite decide_False.
  - destruct (decide (doc_id d = id)) as [Hid|Hid]; cbn [find_doc doc_id].
    + rewrite !decide_False by congruence. done.
    + by rewrite IH.
Qed.

Lemma find_doc_None (id : DeviceID) (coll : Collection) :
  find_doc id coll = None ↔ id ∉ ids coll.
Proof.
  induction coll as [|d rest IH]; cbn [find_doc ids map].
  - split; [intros _; apply not_elem_of_nil|done].
  - rewrite not_elem_of_cons. destruct (decide (doc_id d = id)) as [Hid|Hid].
    + split; [done|]. intros [H _]. by destruct H.
    + rewrite IH. unfold ids. split; [by intros ?; split|by intros [_ ?]].
Qed.

Lemma find_doc_id (id : DeviceID) (coll : Collection) (d : Document) :
  find_doc id coll = Some d → doc_id d = id ∧ d ∈ coll.
Proof.
  induction coll as [|x rest IH]; [done|]. cbn [find_doc].
  destruct (decide (doc_id x = id)) as [Hid|Hid].
  - intros [= ->]. split; [done|apply list_elem_of_here].
  - intros [? ?]%IH. split; [done|by apply list_elem_of_further].
Qed.

Lemma ids_upsert (now : Z) (id : DeviceID) (attrs : DeviceAttributes)
  (coll : Collection) :
  ids (upsert now id attrs coll)
  = match find_doc id coll with
    | Some _ => ids coll
    | None => (ids coll ++ [id])%list
    end.
Proof.
  unfold ids. induction coll as [|d rest IH]; [done|].
  cbn [upsert find_doc]. destruct (decide (doc_id d = id)) as [Hid|Hid].
  - cbn [map doc_id]. by rewrite Hid.
  - cbn [map]. rewrite IH. by destruct (find_doc id rest).
Qed.

(** X1. Whatever the backend and the batch, [UpsertAttributes] for one
    device leaves the record of every other device as it was. *)
Theorem UpsertAttributes_other_devices (b : Backend) (now : Z)
  (coll : Collection) (id id' : DeviceID) (attrs : DeviceAttributes) :
  id' ≠ id →
  find_doc id' (UpsertAttributes b now coll id attrs).2 = find_doc id' coll.
Proof.
  intros Hne.
  destruct (UpsertAttributes_cases b now coll id attrs) as [->|[e ->]];
    [|done].
  by apply find_doc_upsert_other.
Qed.

Lemma UpsertAttributes_other_devices_witness :
  "2" ≠ "1"
  ∧ find_doc "2" (UpsertAttributes Healthy 9 three_devices "1" [sn_value]).2
    = find_doc "2" three_devices.
Proof.
  assert (H : "2" ≠ "1") by discriminate.
  split; [exact H|].
  exact (UpsertAttributes_other_devices Healthy 9 three_devices "1" "2"
           [sn_value] H).
Defined.

(** X2. [UpsertAttributes] keeps the ids of the stored records unique and
    never removes a record: the ids afterwards are the ids before, with the
    id of the call added at the end when it had no record and the call
    succeeded. *)
Theorem UpsertAttributes_ids (b : Backend) (now : Z) (coll : Collection)
  (id : DeviceID) (attrs : DeviceAttributes) :
  NoDup (ids coll) →
  NoDup (ids (UpsertAttributes b now coll id attrs).2)
  ∧ (ids (UpsertAttributes b now coll id attrs).2 = ids coll
     ∨ (id ∉ ids coll)
       ∧ ids (UpsertAttributes b now coll id attrs).2 = (ids coll ++ [id])%list).
Proof.
  intros Hnd.
  destruct (UpsertAttributes_cases b now coll id attrs) as [->|[e ->]];
    cbn [snd]; [|by split; [|left]].
  rewrite ids_upsert. destruct (find_doc id coll) eqn:E; [by split; [|left]|].
  apply find_doc_None in E. split; [|by right].
  apply NoDup_app. split; [done|]. split; [|apply NoDup_singleton].
  intros x Hx ->%list_elem_of_singleton. done.
Qed.

Lemma UpsertAttributes_ids_witness :
  NoDup (ids three_devices)
  ∧ NoDup (ids (UpsertAttributes Healthy 9 three_devices "4" [sn_value]).2).
Proof.
  assert (H : NoDup (ids three_devices)).
  { vm_compute. repeat constructor; intros Hin;
      repeat (apply elem_of_cons in Hin as [Hin|Hin]; [discriminate Hin|]);
      by apply not_elem_of_nil in Hin. }
  split; [exact H|].
  exact (proj1 (UpsertAttributes_ids Healthy 9 three_devices "4" [sn_value] H)).
Defined.

Lemma wf_attrs_insert (m : gmap string AttrDoc) (sc n : string)
  (v d : option Value) :
  wf_attrs m →
  wf_attrs (<[sc +:+ "-" +:+ n :=
               mkAttrDoc (Some (VString sc)) (Some (VString n)) v d]> m).
Proof.
  intros Hwf k a. rewrite lookup_insert. case_decide as Hk.
  - intros [= <-]. exists sc, n. by subst.
  - apply Hwf.
Qed.

Lemma wf_attrs_merge_all (attrs : DeviceAttributes) (m : gmap string AttrDoc) :
  wf_attrs m → wf_attrs (merge_all m attrs).
Proof.
  revert m. induction attrs as [|a attrs IH]; intros m Hwf; [done|].
  unfold merge_all. cbn [foldl]. apply IH.
  unfold merge_one, merge_attr, attr_key. by apply wf_attrs_insert.
Qed.

Lemma wf_store_upsert (now : Z) (id : DeviceID) (attrs : DeviceAttributes)
  (coll : Collection) :
  wf_store coll → wf_store (upsert now id attrs coll).
Proof.
  intros Hwf. induction Hwf as [|d rest Hd Hwf IH]; cbn [upsert].
  - repeat constructor. cbn [doc_attributes].
    apply (wf_attrs_insert _ AttrScopeSystem AttrNameCreated).
    apply (wf_attrs_insert _ AttrScopeSystem AttrNameUpdated).
    apply wf_attrs_merge_all. intros k a Hk. by rewrite lookup_empty in Hk.
  - destruct (decide (doc_id d = id)); constructor; try done.
    cbn [doc_attributes].
    apply (wf_attrs_insert _ AttrScopeSystem AttrNameUpdated).
    by apply wf_attrs_merge_all.
Qed.




Lemma GetDevice_healthy (coll : Collection) (id : DeviceID) :
  id ≠ NilDeviceID → GetDevice Healthy coll id = (find_doc id coll, None).
Proof.
  intros Hid. unfold GetDevice, FindOne. rewrite decide_False by done.
  cbn [request_error].
  induction coll as [|d rest IH]; [done|]. cbn [find_doc].
  destruct (decide (doc_id d = id)) as [Hd|Hd].
  - rewrite filter_cons_True by (cbn [matches]; by apply bool_decide_eq_true).
    done.
  - rewrite filter_cons_False; [done|].
    cbn [matches]. by rewrite bool_decide_eq_false_2.
Qed.

Lemma merge_all_snoc (m : gmap string AttrDoc) (attrs : DeviceAttributes)
  (a : DeviceAttribute) :
  merge_all m (attrs ++ [a])%list = merge_one (merge_all m attrs) a.
Proof. unfold merge_all. by rewrite foldl_app. Qed.




(** X5. The empty id is accepted on the write path and refused on the
    read path: [UpsertAttributes] with the nil id and an empty batch
    succeeds and leaves a record under that id, and [GetDevice] with the
    nil id returns no device and no error, whatever the backend and the
    store. *)
Theorem GetDevice_nil_id (now : Z) (coll : Collection) :
  ∃ coll',
    UpsertAttributes Healthy now coll NilDeviceID [] = (None, coll')
    ∧ is_Some (find_doc NilDeviceID coll')
    ∧ ∀ b c, GetDevice b c NilDeviceID = (None, None).
Proof.
  eexists. split; [apply UpsertAttributes_upsert; constructor|].
  split; [rewrite find_doc_upsert; eauto|]. done.
Qed.



(** X7. Device creation with a group: after a call of [AddDevice] that
    returned no error for a device with a non-empty group, the record of
    the device carries that group as the value of the reserved group
    attribute, and the decoded device reads it back as its group. *)
Theorem AddDevice_group (b : Backend) (now : Z) (coll coll' : Collection)
  (dev : Device) :
  Group dev ≠ EmptyString →
  AddDevice b now coll dev = (None, coll') →
  ∃ d',
    find_doc (ID dev) coll' = Some d'
    ∧ group_value d' = Some (VString (Group dev))
    ∧ device_Group d' = Group dev.
Proof.
  intros Hg. unfold AddDevice. rewrite decide_True by done.
  destruct (UpsertAttributes _ _ _ _ _) as [[e|] c] eqn:E; [done|].
  intros [= <-]. apply UpsertAttributes_success in E as (_ & _ & ->).
  rewrite find_doc_upsert. eexists. split; [done|].
  assert (Hlook : ∀ m,
    merge_all m (Attributes dev ++
       [mkAttr AttrScopeSystem AttrNameGroup (Some (VString (Group dev))) None])%list
      !! group_key
    = Some (mkAttrDoc (Some (VString AttrScopeSystem))
              (Some (VString AttrNameGroup)) (Some (VString (Group dev)))
              (ad_description
                 (default empty_attr
                    (merge_all m (Attributes dev) !! group_key))))).
  { intros m. rewrite merge_all_snoc. unfold merge_one.
    change (attr_key (mkAttr AttrScopeSystem AttrNameGroup _ None))
      with group_key.
    by rewrite lookup_insert_eq. }
  unfold group_value, attr_value, device_Group. fold group_key.
  cbn [doc_attributes].
  destruct (find_doc (ID dev) coll) as [d|];
    rewrite ?lookup_insert_ne by (intros H; vm_compute in H; discriminate H);
    rewrite Hlook; done.
Qed.

Lemma AddDevice_group_witness :
  "g" ≠ EmptyString
  ∧ AddDevice Healthy 2 [] (mkDevice "2" [] "g")
    = (None, (AddDevice Healthy 2 [] (mkDevice "2" [] "g")).2)
  ∧ ∃ d',
      find_doc "2" (AddDevice Healthy 2 [] (mkDevice "2" [] "g")).2 = Some d'
      ∧ group_value d' = Some (VString "g")
      ∧ device_Group d' = "g".
Proof.
  assert (Hg : "g" ≠ EmptyString) by discriminate.
  assert (Hrun : AddDevice Healthy 2 [] (mkDevice "2" [] "g")
                 = (None, (AddDevice Healthy 2 [] (mkDevice "2" [] "g")).2))
    by (vm_compute; reflexivity).
  split; [exact Hg|]. split; [exact Hrun|].
  exact (AddDevice_group Healthy 2 [] _ (mkDevice "2" [] "g") Hg Hrun).
Defined.

End merge_properties.

(** ** Properties of lookup and deletion *)

Section delete_properties.
Import Mongo DataStoreMongo Spec Sample.

Lemma delete_first_id (id : DeviceID) (coll : Collection) :
  delete_first (QId id) coll
  = (delete_doc id coll, bool_decide (is_Some (find_doc id coll))).
Proof.
  induction coll as [|d rest IH]; cbn [delete_first delete_doc find_doc matches].
  - by rewrite bool_decide_eq_false_2 by (by intros [? ?]).
  - destruct (decide (doc_id d = id)) as [Hd|Hd].
    + rewrite !bool_decide_eq_true_2 by eauto. done.
    + rewrite bool_decide_eq_false_2 by done. by rewrite IH.
Qed.

Lemma delete_doc_absent (id : DeviceID) (coll : Collection) :
  find_doc id coll = None → delete_doc id coll = coll.
Proof.
  induction coll as [|d rest IH]; [done|]. cbn [find_doc delete_doc].
  destruct (decide (doc_id d = id)); [done|]. intros H. by rewrite IH.
Qed.

Lemma DeleteDevice_healthy (coll : Collection) (id : DeviceID) :
  DeleteDevice Healthy coll id
  = match find_doc id coll with
    | Some _ => (None, delete_doc id coll)
    | None => (Some ErrDevNotFound, coll)
    end.
Proof.
  unfold DeleteDevice, DeleteOne. cbn [request_error].
  rewrite delete_first_id. destruct (find_doc id coll) eqn:E.
  - by rewrite bool_decide_eq_true_2 by eauto.
  - rewrite bool_decide_eq_false_2 by (by intros [? ?]).
    cbn [DeletedCount b2z]. by rewrite delete_doc_absent.
Qed.

Lemma find_doc_delete_other (id id' : DeviceID) (coll : Collection) :
  id' ≠ id → find_doc id' (delete_doc id coll) = find_doc id' coll.
Proof.
  intros Hne. induction coll as [|d rest IH]; [done|].
  cbn [delete_doc find_doc]. destruct (decide (doc_id d = id)) as [Hd|Hd].
  - by rewrite decide_False by congruence.
  - cbn [find_doc]. by rewrite IH.
Qed.

Lemma find_doc_delete_same (id : DeviceID) (coll : Collection) :
  NoDup (ids coll) → find_doc id (delete_doc id coll) = None.
Proof.
  unfold ids. induction coll as [|d rest IH]; [done|].
  cbn [map]. intros [Hd Hnd]%NoDup_cons. cbn [delete_doc].
  destruct (decide (doc_id d = id)) as [Hid|Hid].
  - apply find_doc_None. by rewrite <- Hid.
  - cbn [find_doc]. rewrite decide_False by done. by apply IH.
Qed.

(** X8. [DeleteDevice] on a healthy backend reports [ErrDevNotFound]
    exactly when the device has no record, and then leaves the collection
    as it was. *)
Theorem DeleteDevice_not_found (coll : Collection) (id : DeviceID) :
  ((DeleteDevice Healthy coll id).1 = Some ErrDevNotFound
   ↔ find_doc id coll = None)
  ∧ (find_doc id coll = None → (DeleteDevice Healthy coll id).2 = coll).
Proof.
  rewrite DeleteDevice_healthy. by destruct (find_doc id coll).
Qed.

(** X9. With unique ids, a deletion that returned no error removes the
    device and nothing else: the device can no longer be fetched, one
    record less is stored, and the record of every other device is as it
    was. *)
Theorem DeleteDevice_removes (coll coll' : Collection) (id : DeviceID) :
  NoDup (ids coll) →
  DeleteDevice Healthy coll id = (None, coll') →
  GetDevice Healthy coll' id = (None, None)
  ∧ S (length coll') = length coll
  ∧ ∀ id', id' ≠ id → find_doc id' coll' = find_doc id' coll.
Proof.
  intros Hnd. rewrite DeleteDevice_healthy.
  destruct (find_doc id coll) as [d|] eqn:E; [|done]. intros [= <-].
  split; [|split].
  - destruct (decide (id = NilDeviceID)) as [->|Hid].
    + done.
    + rewrite GetDevice_healthy by done. by rewrite find_doc_delete_same.
  - clear Hnd. revert E. induction coll as [|x rest IH]; [done|].
    cbn [find_doc delete_doc]. destruct (decide (doc_id x = id)); [done|].
    intros H. cbn [length]. by rewrite IH.
  - intros id' Hne. by apply find_doc_delete_other.
Qed.

Lemma DeleteDevice_removes_witness :
  NoDup (ids store_with_sn)
  ∧ DeleteDevice Healthy store_with_sn "0099" = (None, [])
  ∧ GetDevice Healthy [] "0099" = (None, None).
Proof.
  assert (Hnd : NoDup (ids store_with_sn)).
  { vm_compute. repeat constructor. apply not_elem_of_nil. }
  assert (Hrun : DeleteDevice Healthy store_with_sn "0099" = (None, []))
    by (vm_compute; reflexivity).
  split; [exact Hnd|]. split; [exact Hrun|].
  exact (proj1 (DeleteDevice_removes store_with_sn [] "0099" Hnd Hrun)).
Defined.

(** X10. Create and delete: when a device without a record is written by
    [UpsertAttributes] and then deleted, the collection is again the one
    before the write. *)
Theorem DeleteDevice_after_upsert (b : Backend) (now : Z)
  (coll coll' : Collection) (id : DeviceID) (attrs : DeviceAttributes) :
  find_doc id coll = None →
  UpsertAttributes b now coll id attrs = (None, coll') →
  DeleteDevice Healthy coll' id = (None, coll).
Proof.
  intros Hnew (_ & _ & ->)%UpsertAttributes_success.
  rewrite DeleteDevice_healthy, find_doc_upsert. f_equal.
  clear -Hnew. induction coll as [|d rest IH]; cbn [upsert delete_doc].
  - cbn [doc_id]. by rewrite decide_True.
  - cbn [find_doc] in Hnew. destruct (decide (doc_id d = id)); [done|].
    cbn [delete_doc]. rewrite decide_False by done. by rewrite IH.
Qed.

Lemma DeleteDevice_after_upsert_witness :
  find_doc "0099" [] = None
  ∧ UpsertAttributes Healthy 10 [] "0099" [sn_value] = (None, store_with_sn)
  ∧ DeleteDevice Healthy store_with_sn "0099" = (None, []).
Proof.
  assert (Hnew : find_doc "0099" [] = None) by reflexivity.
  assert (Hrun : UpsertAttributes Healthy 10 [] "0099" [sn_value]
                 = (None, store_with_sn)) by (vm_compute; reflexivity).
  split; [exact Hnew|]. split; [exact Hrun|].
  exact (DeleteDevice_after_upsert Healthy 10 [] store_with_sn "0099"
           [sn_value] Hnew Hrun).
Defined.

End delete_properties.

(** ** Further properties of the group operations *)

Section group_properties.
Import Mongo DataStoreMongo Spec Sample.

Lemma find_doc_assign_group (id : DeviceID) (g : GroupName)
  (coll : Collection) :
  find_doc id (assign_group id g coll) = set_group g <$> find_doc id coll.
Proof.
  induction coll as [|x rest IH]; [done|]. cbn [find_doc assign_group].
  destruct (decide (doc_id x = id)) as [Hid|Hid]; cbn [find_doc].
  - cbn [set_group doc_id]. by rewrite decide_True.
  - by rewrite decide_False.
Qed.

Lemma ids_assign_group (id : DeviceID) (g : GroupName) (coll : Collection) :
  ids (assign_group id g coll) = ids coll.
Proof.
  unfold ids. induction coll as [|x rest IH]; [done|]. cbn [assign_group].
  destruct (decide (doc_id x = id)); cbn [map]; [done|by rewrite IH].
Qed.

(** X11. Assign and read back: after [UpdateDeviceGroup] returned no error
    for a non-empty id, [GetDeviceGroup] returns the group just assigned,
    without error. *)
Theorem GetDeviceGroup_after_update (coll coll' : Collection)
  (id : DeviceID) (g : GroupName) :
  id ≠ NilDeviceID →
  UpdateDeviceGroup Healthy coll id g = (None, coll') →
  GetDeviceGroup Healthy coll' id = (g, None).
Proof.
  intros Hid. rewrite UpdateDeviceGroup_healthy.
  destruct (find_doc id coll) as [d|] eqn:E; [|done].
  destruct (decide (set_group g d = d)); [done|]. intros [= <-].
  unfold GetDeviceGroup. rewrite GetDevice_healthy by done.
  rewrite find_doc_assign_group, E. cbn [fmap option_fmap option_map].
  unfold device_Group, set_group. cbn [doc_attributes]. fold group_key.
  by rewrite lookup_insert_eq.
Qed.

Lemma GetDeviceGroup_after_update_witness :
  "1" ≠ NilDeviceID
  ∧ UpdateDeviceGroup Healthy [mkDocument "1" ∅] "1" "abc"
    = (None, store_with_group)
  ∧ GetDeviceGroup Healthy store_with_group "1" = ("abc", None).
Proof.
  assert (Hid : "1" ≠ NilDeviceID) by discriminate.
  assert (H : UpdateDeviceGroup Healthy [mkDocument "1" ∅] "1" "abc"
              = (None, store_with_group)) by (vm_compute; reflexivity).
  split; [exact Hid|]. split; [exact H|].
  exact (GetDeviceGroup_after_update [mkDocument "1" ∅] store_with_group
           "1" "abc" Hid H).
Defined.

(** What [UnsetDeviceGroup] does on a healthy backend, for use below. *)
Lemma UnsetDeviceGroup_healthy (coll : Collection) (id : DeviceID)
  (g : GroupName) :
  UnsetDeviceGroup Healthy coll id g
  = if decide (Exists (holds_group id g) coll)
    then (None, map (clear_group id g) coll)
    else (Some ErrDevNotFound, coll).
Proof.
  unfold UnsetDeviceGroup, UpdateMany. cbn [request_error].
  fold unsetGroup. rewrite decide_False by apply unsetGroup_accepted.
  cbn [ModifiedCount]. rewrite update_all_clear.
  rewrite (list_filter_iff (λ d, matches d _ = true) (holds_group id g) coll)
    by (intros d; rewrite matches_unset_filter; apply bool_decide_eq_true).
  destruct (decide (Exists (holds_group id g) coll)) as [Hex|Hno].
  - apply Exists_exists in Hex as (d & Hd & Hh).
    assert (Hin : d ∈ filter (λ d, apply_update unsetGroup false d ≠ d)
                     (filter (holds_group id g) coll)).
    { apply list_elem_of_filter. split; [by eapply holds_group_changed|].
      by apply list_elem_of_filter. }
    destruct (filter _ (filter (holds_group id g) coll)) as [|x l];
      [by apply not_elem_of_nil in Hin|].
    rewrite (proj2 (Z.leb_gt _ _)); [done|]. cbn [length]. lia.
  - destruct (filter_holds_nil id g coll Hno) as [-> ->]. done.
Qed.

Lemma clear_assign_group (id : DeviceID) (g : GroupName) (coll : Collection)
  (d : Document) :
  NoDup (ids coll) → find_doc id coll = Some d →
  doc_attributes d !! group_key = None →
  map (clear_group id g) (assign_group id g coll) = coll.
Proof.
  unfold ids. induction coll as [|x rest IH]; [done|].
  cbn [map find_doc assign_group]. intros [Hx Hnd]%NoDup_cons.
  destruct (decide (doc_id x = id)) as [Hid|Hid].
  - intros [= ->] Hnone. cbn [map]. f_equal.
    + unfold clear_group, set_group. rewrite decide_True.
      * cbn [doc_id doc_attributes]. rewrite delete_insert_eq.
        rewrite delete_id by done. by destruct d.
      * split; [done|]. unfold group_value, attr_value. fold group_key.
        cbn [doc_attributes]. by rewrite lookup_insert_eq.
    + clear IH Hnd Hnone. induction rest as [|y rest IH]; [done|].
      cbn [map] in *. apply not_elem_of_cons in Hx as [Hy Hx].
      rewrite IH by done. f_equal. unfold clear_group.
      rewrite decide_False; [done|]. intros [Hyid _]. congruence.
  - intros Hfind Hnone. cbn [map]. rewrite IH by done. f_equal.
    unfold clear_group. rewrite decide_False; [done|]. by intros [? _].
Qed.

(** X12. Assign and unassign: with unique ids, assigning a group to a
    device that has none and then unassigning that group, both on a healthy
    backend, succeeds twice and gives back the collection before the
    assignment. *)
Theorem UnsetDeviceGroup_after_update (coll : Collection) (id : DeviceID)
  (g : GroupName) (d : Document) :
  NoDup (ids coll) → find_doc id coll = Some d →
  doc_attributes d !! group_key = None →
  ∃ coll',
    UpdateDeviceGroup Healthy coll id g = (None, coll')
    ∧ UnsetDeviceGroup Healthy coll' id g = (None, coll).
Proof.
  intros Hnd Hfind Hnone. eexists. split.
  - rewrite UpdateDeviceGroup_healthy, Hfind. rewrite decide_False; [done|].
    intros Heq. apply (f_equal (λ x, doc_attributes x !! group_key)) in Heq.
    unfold set_group in Heq. cbn [doc_attributes] in Heq.
    rewrite lookup_insert_eq in Heq. congruence.
  - rewrite UnsetDeviceGroup_healthy.
    rewrite decide_True.
    + by rewrite (clear_assign_group id g coll d).
    + apply Exists_exists. exists (set_group g d). split.
      * apply (find_doc_id id). by rewrite find_doc_assign_group, Hfind.
      * split; [apply find_doc_id in Hfind as [? _]; done|].
        unfold group_value, attr_value, set_group. fold group_key.
        cbn [doc_attributes]. by rewrite lookup_insert_eq.
Qed.

Lemma UnsetDeviceGroup_after_update_witness :
  NoDup (ids [mkDocument "1" ∅])
  ∧ find_doc "1" [mkDocument "1" ∅] = Some (mkDocument "1" ∅)
  ∧ ∃ coll',
      UpdateDeviceGroup Healthy [mkDocument "1" ∅] "1" "abc" = (None, coll')
      ∧ UnsetDeviceGroup Healthy coll' "1" "abc" = (None, [mkDocument "1" ∅]).
Proof.
  assert (Hnd : NoDup (ids [mkDocument "1" ∅])).
  { repeat constructor. apply not_elem_of_nil. }
  assert (Hfind : find_doc "1" [mkDocument "1" ∅] = Some (mkDocument "1" ∅))
    by reflexivity.
  split; [exact Hnd|]. split; [exact Hfind|].
  exact (UnsetDeviceGroup_after_update [mkDocument "1" ∅] "1" "abc"
           (mkDocument "1" ∅) Hnd Hfind eq_refl).
Defined.

Lemma ids_update_first (q : Query) (u : Update) (coll : Collection) :
  ids (update_first q u coll).1 = ids coll.
Proof.
  unfold ids. induction coll as [|d rest IH]; [done|]. cbn [update_first].
  destruct (matches d q); [done|].
  destruct (update_first q u rest) as [rest' r]. cbn [fst map] in *.
  by rewrite IH.
Qed.

Lemma ids_map_update (sel : Document → bool) (u : Update) (coll : Collection) :
  ids (map (λ d, if sel d then apply_update u false d else d) coll) = ids coll.
Proof.
  unfold ids. rewrite map_map. apply map_ext. intros d. by destruct (sel d).
Qed.

(** X13. The group operations, single and bulk, never add, remove or
    reorder records: whatever the backend and the arguments, the ids in
    the collection after the call are the ids before it. *)
Theorem group_operations_keep_ids (b : Backend) (coll : Collection)
  (id : DeviceID) (devIDs : list DeviceID) (g : GroupName) :
  ids (UpdateDeviceGroup b coll id g).2 = ids coll
  ∧ ids (UnsetDeviceGroup b coll id g).2 = ids coll
  ∧ ids (UpdateDevicesGroup b coll devIDs g).2 = ids coll
  ∧ ids (UnsetDevicesGroup b coll devIDs g).2 = ids coll.
Proof.
  repeat split.
  - unfold UpdateDeviceGroup, UpdateOne.
    destruct (request_error b); [done|].
    destruct (decide (conflicting _)); [done|].
    pose proof (ids_update_first (QId id)
      (mkUpdate {[DbDevAttributesGroup :=
         BAttr (encode_attr (mkAttr AttrScopeSystem DbDevGroup
                               (Some (VString g)) None))]} ∅ ∅) coll) as H.
    destruct (update_first _ _ coll) as [c [ch|]]; cbn [fst] in H.
    + by destruct (0 <? ModifiedCount _).
    + done.
  - unfold UnsetDeviceGroup, UpdateMany.
    destruct (request_error b); [done|].
    destruct (decide (conflicting _)); [done|].
    cbn [ModifiedCount]. destruct (_ <=? 0); apply ids_map_update.
  - unfold UpdateDevicesGroup, UpdateManyIn.
    destruct (request_error b); [done|].
    destruct (decide (conflicting _)); [done|]. apply ids_map_update.
  - unfold UnsetDevicesGroup, UpdateManyIn.
    destruct (request_error b); [done|].
    destruct (decide (conflicting _)); [done|]. apply ids_map_update.
Qed.

(** X14. Failures of the backend on the group read paths are reported as
    not-found: when the backend is unavailable, or the fetched record does
    not decode, [GetDeviceGroup] returns [ErrDevNotFound] and
    [GetDevicesByGroup] returns [ErrGroupNotFound] whenever a record would
    have been fetched. *)
Theorem group_reads_mask_backend_errors (b : Backend) (coll : Collection)
  (id : DeviceID) (g : GroupName) (skip limit : Z) :
  b ≠ Healthy →
  (id ≠ NilDeviceID → is_Some (find_doc id coll) →
   GetDeviceGroup b coll id = (EmptyString, Some ErrDevNotFound))
  ∧ GetDevicesByGroup b coll g skip limit
    = Returns ([], -1, Some ErrGroupNotFound).
Proof.
  intros Hb. split.
  - intros Hid [d Hd]. unfold GetDeviceGroup, GetDevice, FindOne.
    rewrite decide_False by done.
    destruct b as [|e|e]; [done| |]; cbn [request_error].
    + by destruct (decide (e = ErrNoDocuments)).
    + assert (Hne : filter (λ d, matches d (QId id) = true) coll ≠ []).
      { apply find_doc_id in Hd as [Hdid Hin]. intros Hnil.
        assert (d ∈ filter (λ d, matches d (QId id) = true) coll) as Hf.
        { apply list_elem_of_filter. split; [|done].
          cbn [matches]. by apply bool_decide_eq_true. }
        rewrite Hnil in Hf. by apply not_elem_of_nil in Hf. }
      destruct (filter _ coll) as [|x l]; [done|]. cbn [decode].
      by destruct (decide (e = ErrNoDocuments)).
  - unfold GetDevicesByGroup, FindOne.
    destruct b as [|e|e]; [done| |]; cbn [request_error]; [done|].
    by destruct (filter _ coll).
Qed.

Lemma group_reads_mask_backend_errors_witness :
  Unavailable (ErrBackend "down") ≠ Healthy
  ∧ GetDeviceGroup (Unavailable (ErrBackend "down")) store_with_group "1"
      = (EmptyString, Some ErrDevNotFound)
  ∧ GetDevicesByGroup (Unavailable (ErrBackend "down")) store_with_group
      "abc" 0 1
    = Returns ([], -1, Some ErrGroupNotFound).
Proof.
  assert (Hb : Unavailable (ErrBackend "down") ≠ Healthy) by discriminate.
  destruct (group_reads_mask_backend_errors (Unavailable (ErrBackend "down"))
              store_with_group "1" "abc" 0 1 Hb) as [Hget Hlist].
  split; [exact Hb|]. split; [|exact Hlist].
  apply Hget; [discriminate|]. vm_compute. eauto.
Defined.






Lemma matches_in_group (devIDs : list DeviceID) (g : GroupName)
  (d : Document) :
  matches_in d (mkInQuery devIDs
                  (QField DbDevAttributesGroupValue (CLit (VString g))))
  = bool_decide (doc_id d ∈ devIDs ∧ holds_group (doc_id d) g d).
Proof.
  unfold matches_in. cbn [in_ids in_rest matches eval_cond].
  unfold DbDevAttributesGroupValue, DbDevAttributesGroup. cbn [app].
  rewrite eval_eq_value, bool_decide_and. f_equal.
  apply bool_decide_ext. unfold holds_group, group_value, attr_value.
  fold group_key. by split; [|intros [_ ?]].
Qed.

Lemma filter_implied {A} (P Q : A → Prop) `{!∀ x, Decision (P x)}
  `{!∀ x, Decision (Q x)} (l : list A) :
  (∀ x, P x → Q x) → filter Q (filter P l) = filter P l.
Proof.
  intros HPQ. induction l as [|x l IH]; [done|].
  destruct (decide (P x)) as [HP|HP].
  - rewrite (filter_cons_True P) by done.
    rewrite filter_cons_True by auto. by rewrite IH.
  - by rewrite (filter_cons_False P) by done.
Qed.

Lemma UnsetDevicesGroup_healthy (coll : Collection)
  (devIDs : list DeviceID) (g : GroupName) :
  UnsetDevicesGroup Healthy coll devIDs g
  = ((Z.of_nat (length (filter
         (λ d, doc_id d ∈ devIDs ∧ holds_group (doc_id d) g d) coll)), None),
     map (λ d, if bool_decide (doc_id d ∈ devIDs)
               then clear_group (doc_id d) g d else d) coll).
Proof.
  unfold UnsetDevicesGroup, UpdateManyIn. cbn [request_error].
  fold unsetGroup. rewrite decide_False by apply unsetGroup_accepted.
  cbn [ModifiedCount].
  rewrite (list_filter_iff (λ d, matches_in d _ = true)
             (λ d, doc_id d ∈ devIDs ∧ holds_group (doc_id d) g d) coll)
    by (intros d; rewrite matches_in_group; apply bool_decide_eq_true).
  f_equal.
  - f_equal. f_equal. f_equal. apply filter_implied.
    intros d [_ Hh]. by eapply holds_group_changed.
  - apply map_ext. intros d. rewrite matches_in_group. unfold clear_group.
    destruct (decide (doc_id d ∈ devIDs)) as [Hin|Hin].
    + rewrite (bool_decide_eq_true_2 (doc_id d ∈ devIDs)) by done.
      destruct (decide (holds_group (doc_id d) g d)) as [Hh|Hh].
      * by rewrite bool_decide_eq_true_2, apply_unsetGroup.
      * rewrite bool_decide_eq_false_2; [done|]. by intros [_ ?].
    + rewrite !bool_decide_eq_false_2; [done|done|]. by intros [? _].
Qed.


(** X18. The single and the bulk unassignment agree: [UnsetDevicesGroup]
    with the one id of [UnsetDeviceGroup] leaves the same collection, and
    the single call returns no error exactly when the bulk call modified
    a record, [ErrDevNotFound] otherwise. *)
Theorem UnsetDeviceGroup_as_bulk (coll : Collection) (id : DeviceID)
  (g : GroupName) :
  ∃ modified coll',
    UnsetDevicesGroup Healthy coll [id] g = ((modified, None), coll')
    ∧ UnsetDeviceGroup Healthy coll id g
      = (if 0 <? modified then None else Some ErrDevNotFound, coll').
Proof.
  eexists _, _. split; [apply UnsetDevicesGroup_healthy|].
  rewrite UnsetDeviceGroup_healthy.
  assert (Hmap : map (λ d, if bool_decide (doc_id d ∈ [id])
                           then clear_group (doc_id d) g d else d) coll
                 = map (clear_group id g) coll).
  { apply map_ext. intros d.
    destruct (decide (doc_id d = id)) as [Hid|Hid].
    - rewrite bool_decide_eq_true_2 by (by apply list_elem_of_singleton).
      by rewrite Hid.
    - rewrite bool_decide_eq_false_2 by (by intros ?%list_elem_of_singleton).
      unfold clear_group. rewrite decide_False; [done|]. by intros [? _]. }
  rewrite Hmap.
  rewrite (list_filter_iff
             (λ d, doc_id d ∈ [id] ∧ holds_group (doc_id d) g d)
             (holds_group id g) coll).
  2:{ intros d. rewrite list_elem_of_singleton. unfold holds_group.
      split; [intros [-> [_ ?]]; done|intros [<- ?]; done]. }
  destruct (decide (Exists (holds_group id g) coll)) as [Hex|Hno].
  - apply Exists_exists in Hex as (d & Hd & Hh).
    assert (d ∈ filter (holds_group id g) coll) as Hin
      by (by apply list_elem_of_filter).
    destruct (filter (holds_group id g) coll) as [|x l];
      [by apply not_elem_of_nil in Hin|].
    rewrite (proj2 (Z.ltb_lt _ _)); [done|]. cbn [length]. lia.
  - destruct (filter_holds_nil id g coll Hno) as [-> ->]. done.
Qed.

End group_properties.

(** ** Properties of the catalogues: groups and attribute names *)

Section catalogue_properties.
Import Mongo DataStoreMongo Spec Sample.

Lemma mapM_decoded {A} (f : A → option string) (g : string → A)
  (l : list A) :
  (∀ x s, f x = Some s → x = g s) →
  Forall (λ x, is_Some (f x)) l → NoDup l →
  ∃ k, mapM f l = Some k ∧ l = g <$> k ∧ NoDup k.
Proof.
  intros Hfg Hall Hnd.
  destruct (mapM_is_Some_2 f l) as [k Hk]; [done|].
  exists k. split; [done|].
  apply mapM_Some in Hk.
  assert (Hl : l = g <$> k).
  { induction Hk as [|x y l k Hxy Hk IH]; [done|].
    cbn [fmap list_fmap]. apply Forall_cons in Hall as [_ Hall].
    apply NoDup_cons in Hnd as [_ Hnd]. f_equal; [by apply Hfg|by apply IH]. }
  split; [done|]. rewrite Hl in Hnd. by apply NoDup_fmap_1 in Hnd.
Qed.

Lemma lookup_group_value (d : Document) :
  lookup_path d DbDevAttributesGroupValue = BV <$> group_value d.
Proof.
  unfold DbDevAttributesGroupValue, DbDevAttributesGroup. cbn [app].
  by rewrite lookup_path_value.
Qed.

Lemma elem_of_distinct_groups (coll : Collection) (x : BVal) :
  x ∈ remove_dups
        (omap (λ d, lookup_path d DbDevAttributesGroupValue)
           (filter (λ d, matches d (QField DbDevAttributesGroupValue
                                      (CExists true)) = true) coll))
  ↔ ∃ d, d ∈ coll ∧ BV <$> group_value d = Some x.
Proof.
  rewrite elem_of_remove_dups, list_elem_of_omap. split.
  - intros (d & [_ Hd]%list_elem_of_filter & Hx). exists d.
    by rewrite <- lookup_group_value.
  - intros (d & Hd & Hx). exists d. rewrite lookup_group_value.
    split; [|done]. apply list_elem_of_filter. split; [|done].
    cbn [matches eval_cond]. rewrite lookup_group_value, Hx.
    by rewrite bool_decide_eq_true_2 by eauto.
Qed.

(** The groups [ListGroups] returns on a healthy backend when every
    stored group value is a string. *)
Lemma ListGroups_members (coll : Collection) :
  (∀ d v, d ∈ coll → group_value d = Some v → ∃ s, v = VString s) →
  ∃ groups,
    ListGroups Healthy coll = Returns (groups, None)
    ∧ NoDup groups
    ∧ ∀ g, g ∈ groups ↔ ∃ d, d ∈ coll ∧ group_value d = Some (VString g).
Proof.
  intros Hstr. unfold ListGroups, Distinct. cbn [request_error].
  set (results := remove_dups _).
  destruct (mapM_decoded assert_string_at
              (λ s, BV (VString s)) results) as (k & Hk & Hres & Hnd).
  - intros [[s'| | |]|a] s; try done. by intros [= ->].
  - apply Forall_forall. intros x (d & Hd & Hx)%elem_of_distinct_groups.
    destruct (group_value d) as [v|] eqn:E; [|done].
    destruct (Hstr d v Hd E) as [s ->]. cbn in Hx. injection Hx as <-. eauto.
  - apply NoDup_remove_dups.
  - exists k. unfold GroupName. rewrite Hk.
    split; [done|]. split; [done|]. intros g.
    assert (g ∈ k ↔ BV (VString g) ∈ results) as ->.
    { rewrite Hres, list_elem_of_fmap. split; [by eauto|].
      by intros (s & [= ->] & ?). }
    unfold results. rewrite elem_of_distinct_groups.
    split; intros (d & Hd & Hx); exists d; (split; [done|]).
    + by apply BV_fmap_eq.
    + by rewrite Hx.
Qed.

(** X19. On a healthy backend, when every stored group value is a string,
    [ListGroups] returns without error the group names in use, each
    once: a name is listed exactly when some stored device carries it as
    its group value. *)
Theorem ListGroups_distinct (coll : Collection) :
  (∀ d v, d ∈ coll → group_value d = Some v → ∃ s, v = VString s) →
  ∃ groups,
    ListGroups Healthy coll = Returns (groups, None)
    ∧ NoDup groups
    ∧ ∀ g, g ∈ groups ↔ ∃ d, d ∈ coll ∧ group_value d = Some (VString g).
Proof. exact (ListGroups_members coll). Qed.

Lemma ListGroups_distinct_witness :
  ∃ groups,
    ListGroups Healthy three_devices = Returns (groups, None)
    ∧ NoDup groups
    ∧ ∀ g, g ∈ groups
           ↔ ∃ d, d ∈ three_devices ∧ group_value d = Some (VString g).
Proof.
  apply ListGroups_distinct.
  intros d v Hd Hv.
  assert (Hall : Forall (λ d, ∀ v, group_value d = Some v → ∃ s, v = VString s)
                        three_devices).
  { vm_compute. repeat constructor; intros v0 [= <-]; eauto. }
  exact (proj1 (Forall_forall _ _) Hall d Hd v Hv).
Defined.



(** X21. The group catalogue and the group listing agree: on a healthy
    backend with string group values, [GetDevicesByGroup] reports
    [ErrGroupNotFound] for a group name exactly when [ListGroups] does not
    list it. *)
Theorem ListGroups_GetDevicesByGroup (coll : Collection) (g : GroupName)
  (skip limit : Z) :
  (∀ d v, d ∈ coll → group_value d = Some v → ∃ s, v = VString s) →
  ∃ groups,
    ListGroups Healthy coll = Returns (groups, None)
    ∧ (g ∉ groups
       ↔ GetDevicesByGroup Healthy coll g skip limit
         = Returns ([], -1, Some ErrGroupNotFound)).
Proof.
  intros Hstr.
  destruct (ListGroups_members coll Hstr) as (groups & Hrun & _ & Hin).
  exists groups. split; [done|]. rewrite Hin.
  unfold GetDevicesByGroup, FindOne. cbn [request_error].
  rewrite (list_filter_iff (λ d, matches d _ = true)
             (λ d, in_group g d = true) coll).
  2:{ intros d. cbn [matches eval_cond]. rewrite lookup_group_value.
      unfold in_group. by rewrite (bool_decide_ext _ _ (BV_fmap_eq _ _)). }
  split.
  - intros Hno.
    destruct (filter (λ d, in_group g d = true) coll) as [|m ms] eqn:E; [done|].
    exfalso. apply Hno. exists m.
    assert (m ∈ filter (λ d, in_group g d = true) coll) as Hm
      by (rewrite E; apply list_elem_of_here).
    apply list_elem_of_filter in Hm as [Hg Hm]. split; [done|].
    by apply bool_decide_eq_true in Hg.
  - intros Hrun' (d & Hd & Hg).
    assert (d ∈ filter (λ d, in_group g d = true) coll) as Hm.
    { apply list_elem_of_filter. split; [|done].
      by apply bool_decide_eq_true. }
    destruct (filter (λ d, in_group g d = true) coll) as [|m ms];
      [by apply not_elem_of_nil in Hm|].
    cbn [decode] in Hrun'.
    destruct (GetDevices Healthy coll _) as [[[page n] [e|]]|]; done.
Qed.

Lemma ListGroups_GetDevicesByGroup_witness :
  ∃ groups,
    ListGroups Healthy three_devices = Returns (groups, None)
    ∧ (("missing" : GroupName) ∉ groups
       ↔ GetDevicesByGroup Healthy three_devices "missing" 0 0
         = Returns ([], -1, Some ErrGroupNotFound)).
Proof.
  apply ListGroups_GetDevicesByGroup.
  intros d v Hd Hv.
  assert (Hall : Forall (λ d, ∀ v, group_value d = Some v → ∃ s, v = VString s)
                        three_devices).
  { vm_compute. repeat constructor; intros v0 [= <-]; eauto. }
  exact (proj1 (Forall_forall _ _) Hall d Hd v Hv).
Defined.

Lemma elem_of_all_entries (coll : Collection) (k : string) (a : AttrDoc) :
  (k, a) ∈ all_entries coll ↔ ∃ d, d ∈ coll ∧ doc_attributes d !! k = Some a.
Proof.
  unfold all_entries. rewrite list_elem_of_bind.
  split; intros (d & H1 & H2); exists d.
  - by apply elem_of_map_to_list in H1.
  - by rewrite elem_of_map_to_list.
Qed.

Lemma elem_of_allkeys (coll : Collection) (v : Value) :
  v ∈ remove_dups (omap (λ kv : string * AttrDoc, ad_name kv.2)
                     (all_entries coll))
  ↔ ∃ d k a, d ∈ coll ∧ doc_attributes d !! k = Some a ∧ ad_name a = Some v.
Proof.
  rewrite elem_of_remove_dups, list_elem_of_omap. split.
  - intros ([k a] & (d & Hd & Hk)%elem_of_all_entries & Hn). eauto 6.
  - intros (d & k & a & Hd & Hk & Hn). exists (k, a).
    split; [|done]. apply elem_of_all_entries. eauto.
Qed.

(** The names [GetAllAttributeNames] returns on a healthy backend for a
    well-formed store. *)
Lemma GetAllAttributeNames_members (coll : Collection) :
  wf_store coll →
  ∃ names,
    GetAllAttributeNames Healthy coll = Returns (names, None)
    ∧ NoDup names
    ∧ ∀ n, n ∈ names
           ↔ ∃ d k a, d ∈ coll ∧ doc_attributes d !! k = Some a
                      ∧ ad_name a = Some (VString n).
Proof.
  intros Hwf. unfold GetAllAttributeNames, AggregateAllKeys, run_allkeys.
  cbn [request_error].
  destruct (all_entries coll) as [|e es] eqn:E.
  - exists []. split; [done|]. split; [constructor|]. intros n.
    split; [by intros ?%not_elem_of_nil|].
    intros (d & k & a & Hd & Hk & _).
    assert ((k, a) ∈ all_entries coll) as Hin
      by (apply elem_of_all_entries; eauto).
    rewrite E in Hin. by apply not_elem_of_nil in Hin.
  - rewrite <- E. cbn [decode]. unfold assert_strings.
    set (results := remove_dups _).
    destruct (mapM_decoded assert_string VString results)
      as (names & Hnames & Hres & Hnd).
    + intros [s'| | |] s; try done. by intros [= ->].
    + apply Forall_forall.
      intros v (d & k & a & Hd & Hk & Hn)%elem_of_allkeys.
      apply (proj1 (Forall_forall _ _) Hwf) in Hd.
      destruct (Hd k a Hk) as (sc & n & _ & Hn' & _).
      rewrite Hn in Hn'. injection Hn' as ->. by eexists.
    + apply NoDup_remove_dups.
    + exists names. rewrite Hnames. split; [done|]. split; [done|].
      intros n.
      assert (n ∈ names ↔ VString n ∈ results) as ->.
      { rewrite Hres, list_elem_of_fmap. split; [by eauto|].
        by intros (s & [= ->] & ?). }
      apply elem_of_allkeys.
Qed.

Lemma wf_store_with_sn : wf_store store_with_sn.
Proof.
  unfold store_with_sn.
  rewrite (UpsertAttributes_upsert _ _ _ _ named_sn_value unreserved_sn_value).
  apply wf_store_upsert. constructor.
Qed.

Lemma sn_stored :
  ∃ d k a, d ∈ store_with_sn ∧ doc_attributes d !! k = Some a
           ∧ ad_name a = Some (VString "sn").
Proof.
  destruct store_with_sn as [|d rest] eqn:E; [by vm_compute in E|].
  vm_compute in E. injection E as <- <-.
  eexists _, "inventory-sn", _. split; [left|].
  split; vm_compute; reflexivity.
Qed.

(** X22. On a healthy backend and a well-formed store
    [GetAllAttributeNames] returns, without error, the names of the stored
    attributes, each once: a name is returned exactly when some stored
    attribute of some device carries it. *)
Theorem GetAllAttributeNames_catalogue (coll : Collection) :
  wf_store coll →
  ∃ names,
    GetAllAttributeNames Healthy coll = Returns (names, None)
    ∧ NoDup names
    ∧ ∀ n, n ∈ names
           ↔ ∃ d k a, d ∈ coll ∧ doc_attributes d !! k = Some a
                      ∧ ad_name a = Some (VString n).
Proof. exact (GetAllAttributeNames_members coll). Qed.

Lemma GetAllAttributeNames_catalogue_witness :
  wf_store store_with_sn
  ∧ ∃ names,
      GetAllAttributeNames Healthy store_with_sn = Returns (names, None)
      ∧ NoDup names ∧ "sn" ∈ names.
Proof.
  split; [exact wf_store_with_sn|].
  destruct (GetAllAttributeNames_catalogue store_with_sn wf_store_with_sn)
    as (names & Hrun & Hnd & Hiff).
  exists names. split; [exact Hrun|]. split; [exact Hnd|].
  apply Hiff. exact sn_stored.
Defined.

(** X23. [GetAllAttributeNames] looks at the error of the aggregation
    before it reads the cursor: with an unavailable backend it returns the
    error of the backend, and on a well-formed store it returns for every
    backend (it does not panic); without any stored attribute it returns
    the empty list and no error. *)
Theorem GetAllAttributeNames_errors (coll : Collection) :
  (∀ e, GetAllAttributeNames (Unavailable e) coll = Returns ([], Some e))
  ∧ (all_entries coll = [] →
     GetAllAttributeNames Healthy coll = Returns ([], None))
  ∧ (wf_store coll → ∀ b, GetAllAttributeNames b coll ≠ Panics).
Proof.
  split; [done|]. split.
  - intros E. unfold GetAllAttributeNames, AggregateAllKeys, run_allkeys.
    by rewrite E.
  - intros Hwf [|e|e].
    + destruct (GetAllAttributeNames_members coll Hwf) as (names & -> & _).
      done.
    + done.
    + unfold GetAllAttributeNames, AggregateAllKeys, run_allkeys.
      cbn [request_error]. by destruct (all_entries coll).
Qed.

End catalogue_properties.

(** ** Further properties of list queries *)

Section list_query_properties.
Import Mongo DataStoreMongo Spec Sample.



Lemma length_filter_split {A} (P : A → bool) (Q : A → bool) (l : list A) :
  (length (filter (λ x, (P x && Q x) = true) l)
   + length (filter (λ x, (P x && negb (Q x)) = true) l)
   = length (filter (λ x, P x = true) l))%nat.
Proof.
  induction l as [|x l IH]; [done|].
  destruct (P x) eqn:HP, (Q x) eqn:HQ.
  - rewrite (filter_cons_True (λ x, (P x && Q x) = true))
      by (by rewrite HP, HQ).
    rewrite (filter_cons_False (λ x, (P x && negb (Q x)) = true))
      by (by rewrite HP, HQ).
    rewrite (filter_cons_True (λ x, P x = true)) by done.
    cbn [length]. lia.
  - rewrite (filter_cons_False (λ x, (P x && Q x) = true))
      by (by rewrite HP, HQ).
    rewrite (filter_cons_True (λ x, (P x && negb (Q x)) = true))
      by (by rewrite HP, HQ).
    rewrite (filter_cons_True (λ x, P x = true)) by done.
    cbn [length]. lia.
  - rewrite (filter_cons_False (λ x, (P x && Q x) = true))
      by (by rewrite HP).
    rewrite (filter_cons_False (λ x, (P x && negb (Q x)) = true))
      by (by rewrite HP).
    rewrite (filter_cons_False (λ x, P x = true)) by (by rewrite HP).
    done.
  - rewrite (filter_cons_False (λ x, (P x && Q x) = true))
      by (by rewrite HP).
    rewrite (filter_cons_False (λ x, (P x && negb (Q x)) = true))
      by (by rewrite HP).
    rewrite (filter_cons_False (λ x, P x = true)) by (by rewrite HP).
    done.
Qed.

(** X25. [hasGroup] splits the matches: for a query with a non-negative
    skip, the count returned with [hasGroup = true] and the count returned
    with [hasGroup = false] add up to the count returned with [hasGroup]
    unset. *)
Theorem GetDevices_has_group_split (coll : Collection) (q : ListQuery) :
  0 ≤ Skip q →
  ∃ page_t total_t page_f total_f page total,
    GetDevices Healthy coll (with_has_group (Some true) q)
    = Returns (page_t, total_t, None)
    ∧ GetDevices Healthy coll (with_has_group (Some false) q)
      = Returns (page_f, total_f, None)
    ∧ GetDevices Healthy coll (with_has_group None q)
      = Returns (page, total, None)
    ∧ total_t + total_f = total.
Proof.
  intros Hs. eexists _, _, _, _, _, _.
  rewrite !GetDevices_healthy by done.
  split; [reflexivity|]. split; [reflexivity|]. split; [reflexivity|].
  set (P := λ d, satisfies (with_has_group None q) d).
  rewrite (list_filter_iff (λ d, satisfies (with_has_group (Some true) q) d = true)
             (λ d, (P d && has_group d) = true) coll).
  2:{ intros d. unfold P, satisfies, group_ok.
      cbn [HasGroup QGroupName Filters with_has_group].
      destruct (if decide (QGroupName q = EmptyString) then _ else _),
        (forallb _ _), (has_group d); done. }
  rewrite (list_filter_iff (λ d, satisfies (with_has_group (Some false) q) d = true)
             (λ d, (P d && negb (has_group d)) = true) coll).
  2:{ intros d. unfold P, satisfies, group_ok.
      cbn [HasGroup QGroupName Filters with_has_group].
      destruct (if decide (QGroupName q = EmptyString) then _ else _),
        (forallb _ _), (has_group d); done. }
  rewrite <- Nat2Z.inj_add. f_equal. apply length_filter_split.
Qed.

Lemma GetDevices_has_group_split_witness :
  0 ≤ Skip (mkListQuery 0 20 [] None None EmptyString)
  ∧ ∃ page_t total_t page_f total_f page total,
      GetDevices Healthy three_devices
        (with_has_group (Some true) (mkListQuery 0 20 [] None None EmptyString))
      = Returns (page_t, total_t, None)
      ∧ GetDevices Healthy three_devices
          (with_has_group (Some false)
             (mkListQuery 0 20 [] None None EmptyString))
        = Returns (page_f, total_f, None)
      ∧ GetDevices Healthy three_devices
          (with_has_group None (mkListQuery 0 20 [] None None EmptyString))
        = Returns (page, total, None)
      ∧ total_t + total_f = total.
Proof.
  assert (H : 0 ≤ Skip (mkListQuery 0 20 [] None None EmptyString))
    by (cbn; lia).
  split; [exact H|].
  exact (GetDevices_has_group_split three_devices
           (mkListQuery 0 20 [] None None EmptyString) H).
Defined.

(** X26. Only the equality operator is translated: a query holding a
    filter with any other operator, run with a non-negative skip on a
    healthy backend, returns the empty page and the count zero, without
    error. *)
Theorem GetDevices_unknown_operator (coll : Collection) (q : ListQuery)
  (f : Filter) :
  f ∈ Filters q → Operator f ≠ Eq → 0 ≤ Skip q →
  GetDevices Healthy coll q = Returns ([], 0, None).
Proof.
  intros Hf Hop Hs. apply GetDevices_no_match; [done|].
  apply Forall_forall. intros d _. unfold satisfies.
  apply andb_false_iff. right. apply not_true_iff_false.
  rewrite forallb_forall. intros Hall.
  specialize (Hall f (proj1 (list_elem_of_In _ _) Hf)).
  apply andb_true_iff in Hall as [Hop' _].
  by apply bool_decide_eq_true in Hop'.
Qed.

Lemma GetDevices_unknown_operator_witness :
  mkFilter "inventory" "sn" "X" None 0
    ∈ Filters (mkListQuery 0 0 [mkFilter "inventory" "sn" "X" None 0]
                           None None EmptyString)
  ∧ Operator (mkFilter "inventory" "sn" "X" None 0) ≠ Eq
  ∧ GetDevices Healthy store_with_sn
      (mkListQuery 0 0 [mkFilter "inventory" "sn" "X" None 0]
                   None None EmptyString)
    = Returns ([], 0, None).
Proof.
  assert (Hin : mkFilter "inventory" "sn" "X" None 0
                ∈ Filters (mkListQuery 0 0
                             [mkFilter "inventory" "sn" "X" None 0]
                             None None EmptyString))
    by apply list_elem_of_here.
  assert (Hop : Operator (mkFilter "inventory" "sn" "X" None 0) ≠ Eq)
    by discriminate.
  split; [exact Hin|]. split; [exact Hop|].
  apply (GetDevices_unknown_operator store_with_sn _ _ Hin Hop). cbn. lia.
Defined.

Lemma bson_leb_total (x y : option BVal) :
  bson_leb x y = true ∨ bson_leb y x = true.
Proof.
  unfold bson_leb.
  destruct x as [[[a|a|a|a]|a]|], y as [[[c|c|c|c]|c]|];
    cbn [bson_rank Z.ltb Z.eqb Z.compare Pos.compare Pos.compare_cont
         orb andb];
    try (by left); try (by right);
    cbn [Pos.eqb andb];
    first [apply String.leb_total
          |rewrite !Z.leb_le; lia
          |by destruct a, c; auto].
Qed.

Lemma sort_leb_total (p : Path) (dir : Z) (a c : Document) :
  sort_leb p dir a c = true ∨ sort_leb p dir c a = true.
Proof. unfold sort_leb. destruct (0 <? dir); apply bson_leb_total. Qed.

Lemma ordered_by_cons (leb : Document → Document → bool) (a : Document)
  (l : list Document) :
  ordered_by leb (a :: l)
  ↔ match l with c :: _ => leb a c = true | [] => True end ∧ ordered_by leb l.
Proof. done. Qed.

Lemma sort_insert_ordered (leb : Document → Document → bool) (d : Document)
  (l : list Document) :
  (∀ a c, leb a c = true ∨ leb c a = true) →
  ordered_by leb l → ordered_by leb (sort_insert leb d l).
Proof.
  intros Htot. induction l as [|x rest IH]; [done|].
  intros Hord. cbn [sort_insert]. destruct (leb d x) eqn:E; [done|].
  apply ordered_by_cons in Hord as [Hhd Hord].
  apply ordered_by_cons. split; [|by apply IH].
  assert (Hxd : leb x d = true) by (destruct (Htot d x); congruence).
  destruct rest as [|r rest']; [done|]. cbn [sort_insert].
  by destruct (leb d r).
Qed.

Lemma sort_docs_ordered (leb : Document → Document → bool)
  (l : list Document) :
  (∀ a c, leb a c = true ∨ leb c a = true) → ordered_by leb (sort_docs leb l).
Proof.
  intros Htot. induction l as [|x l IH]; [done|].
  unfold sort_docs in *. cbn [foldr]. by apply sort_insert_ordered.
Qed.

Lemma ordered_by_drop (leb : Document → Document → bool) (n : nat)
  (l : list Document) : ordered_by leb l → ordered_by leb (drop n l).
Proof.
  revert l. induction n as [|n IH]; intros [|x l]; try done.
  intros [_ H]%ordered_by_cons. by apply IH.
Qed.

Lemma ordered_by_take (leb : Document → Document → bool) (n : nat)
  (l : list Document) : ordered_by leb l → ordered_by leb (take n l).
Proof.
  revert l. induction n as [|n IH]; intros [|x l]; try done.
  intros [Hhd H]%ordered_by_cons. cbn [take]. apply ordered_by_cons.
  split; [|by apply IH]. destruct l as [|c l]; [by destruct n|].
  by destruct n.
Qed.

Lemma ordered_by_ext (leb leb' : Document → Document → bool)
  (l : list Document) :
  (∀ a c, leb a c = leb' a c) → ordered_by leb l → ordered_by leb' l.
Proof.
  intros Hext. induction l as [|x l IH]; [done|].
  intros [Hhd H]%ordered_by_cons. apply ordered_by_cons.
  split; [|by apply IH]. destruct l; [done|]. by rewrite <- Hext.
Qed.

(** X27. A sorted listing comes back in the requested order: whenever
    [GetDevices] returns a page for a query with a sort key, consecutive
    devices of the page are in ascending order of the value of the sort
    attribute when [Ascending] is set, and in descending order when it is
    not (a device without the attribute counting as the smallest). *)
Theorem GetDevices_sorted (b : Backend) (coll : Collection) (q : ListQuery)
  (s : Sort) (page : list Document) (total : Z) :
  QSort q = Some s →
  GetDevices b coll q = Returns (page, total, None) →
  let key d := BV <$> attr_value d (SortAttrScope s) (SortAttrName s) in
  if Ascending s
  then ordered_by (λ d1 d2, bson_leb (key d1) (key d2)) page
  else ordered_by (λ d1 d2, bson_leb (key d2) (key d1)) page.
Proof.
  intros Hsort (_ & -> & _)%GetDevices_success key.
  unfold ordered. rewrite Hsort.
  set (p := [DbDevAttributes; _; DbDevAttributesValue]).
  assert (Hord : ordered_by (sort_leb p (if Ascending s then 1 else -1))
                   (paginate (Skip q) (Limit q)
                      (sort_docs (sort_leb p (if Ascending s then 1 else -1))
                         (filter (λ d, satisfies q d = true) coll)))).
  { unfold paginate. destruct (0 <? Limit q);
      [apply ordered_by_take|]; apply ordered_by_drop, sort_docs_ordered;
      intros a c; apply sort_leb_total. }
  assert (Hkey : ∀ d, lookup_path d p = key d).
  { intros d. unfold p, key, attr_value. by rewrite lookup_path_value. }
  destruct (Ascending s);
    (eapply ordered_by_ext; [|exact Hord]);
    intros a c; unfold sort_leb; cbn [Z.ltb Z.compare]; by rewrite !Hkey.
Qed.

Lemma GetDevices_sorted_witness :
  QSort score_query = Some (mkSort "inventory" "score" false)
  ∧ GetDevices Healthy scored_devices score_query
    = Returns (score_page, 3, None)
  ∧ ordered_by
      (λ d1 d2, bson_leb (BV <$> attr_value d2 "inventory" "score")
                         (BV <$> attr_value d1 "inventory" "score"))
      score_page.
Proof.
  assert (Hs : QSort score_query = Some (mkSort "inventory" "score" false))
    by reflexivity.
  assert (Hrun : GetDevices Healthy scored_devices score_query
                 = Returns (score_page, 3, None)) by (vm_compute; reflexivity).
  split; [exact Hs|]. split; [exact Hrun|].
  exact (GetDevices_sorted Healthy scored_devices score_query
           (mkSort "inventory" "score" false) score_page 3 Hs Hrun).
Defined.

End list_query_properties.

(** ** Properties of the attribute keys *)

Section key_properties.
Import Mongo DataStoreMongo Spec Sample FieldName.

Lemma dash_key_inj (sc1 sc2 n1 n2 : string) :
  free_of "-"%char sc1 → free_of "-"%char sc2 →
  sc1 +:+ "-" +:+ n1 = sc2 +:+ "-" +:+ n2 → sc1 = sc2 ∧ n1 = n2.
Proof.
  revert sc2. induction sc1 as [|c1 sc1 IH]; intros [|c2 sc2]; simpl.
  - intros _ _ H. injection H as H. split; [done|exact H].
  - intros _ [Hc _] H. injection H as Hc' _. by destruct Hc.
  - intros [Hc _] _ H. injection H as Hc' _. by destruct Hc.
  - intros [_ H1] [_ H2] H. injection H as -> Heq.
    destruct (IH sc2 H1 H2 Heq) as [-> ->]. done.
Qed.

Lemma makeAttrField_path_inj (name1 scope1 name2 scope2 : string)
  (subs1 subs2 : list string) :
  free_of "-"%char scope1 → free_of "-"%char scope2 →
  makeAttrField name1 scope1 subs1 = makeAttrField name2 scope2 subs2 →
  name1 = name2 ∧ scope1 = scope2 ∧ subs1 = subs2.
Proof.
  intros H1 H2. unfold makeAttrField. cbn [app]. intros [= Hkey Hsubs].
  destruct (dash_key_inj scope1 scope2 name1 name2 H1 H2 Hkey) as [-> ->].
  done.
Qed.

Lemma append_cons (c : ascii) (s t : string) :
  String c s +:+ t = String c (s +:+ t).
Proof. reflexivity. Qed.

Lemma append_nil (t : string) : EmptyString +:+ t = t.
Proof. reflexivity. Qed.

Lemma free_of_app (c : ascii) (s t : string) :
  free_of c s → free_of c t → free_of c (s +:+ t).
Proof.
  intros Hs Ht. induction s as [|x s IH].
  - by rewrite append_nil.
  - destruct Hs as [Hx Hs]. rewrite append_cons. split; [done|by apply IH].
Qed.

Lemma fields_nonempty (s : string) : fields s ≠ [].
Proof.
  destruct s as [|c s]; cbn [fields]; [done|].
  destruct (Ascii.eqb c "."); [done|]. by destruct (fields s).
Qed.

Lemma fields_free (s : string) : free_of "."%char s → fields s = [s].
Proof.
  induction s as [|c s IH]; cbn [fields free_of]; [done|].
  intros [Hc Hs]. apply Ascii.eqb_neq in Hc. rewrite Hc, (IH Hs). done.
Qed.

Lemma fields_app (s t : string) :
  fields (s +:+ "." +:+ t) = (fields s ++ fields t)%list.
Proof.
  induction s as [|c s IH].
  - rewrite append_nil. reflexivity.
  - rewrite append_cons. cbn [fields]. rewrite IH.
    destruct (Ascii.eqb c "."); [done|].
    pose proof (fields_nonempty s) as Hne.
    by destruct (fields s).
Qed.

Lemma fields_Join (e : string) (rest : list string) :
  Forall (free_of "."%char) (e :: rest) → fields (Join (e :: rest) ".") = e :: rest.
Proof.
  revert e. induction rest as [|e' rest IH]; intros e Hfree.
  - cbn [Join]. apply fields_free. by inversion Hfree.
  - inversion Hfree as [|? ? He Hrest]; subst.
    change (Join (e :: e' :: rest) ".") with (e +:+ "." +:+ Join (e' :: rest) ".").
    by rewrite fields_app, (fields_free e He), (IH e' Hrest).
Qed.

Lemma fields_key (name scope : string) :
  free_of "."%char scope → free_of "."%char name →
  fields (DbDevAttributes +:+ "." +:+ scope +:+ "-" +:+ name)
  = [DbDevAttributes; scope +:+ "-" +:+ name].
Proof.
  intros Hs Hn. rewrite fields_app.
  rewrite (fields_free (scope +:+ "-" +:+ name)).
  - reflexivity.
  - apply free_of_app; [done|].
    apply (free_of_app _ "-"); [|done]. cbn. split; [discriminate|done].
Qed.

Lemma fields_makeAttrFieldName (name scope : string) (subs : list string) :
  free_of "."%char scope → free_of "."%char name →
  Forall (free_of "."%char) subs →
  fields (makeAttrFieldName name scope subs) = makeAttrField name scope subs.
Proof.
  intros Hs Hn Hsubs. unfold makeAttrFieldName, makeAttrField.
  destruct subs as [|e rest]; cbn [length Nat.ltb Nat.leb app].
  - by apply fields_key.
  - change (Join (?f :: e :: rest) ".")
      with (f +:+ "." +:+ Join (e :: rest) ".").
    rewrite fields_app, fields_key, fields_Join by done. reflexivity.
Qed.

(** X28. The composite field name identifies the attribute when scopes
    hold no dash and no part holds a dot: for such scopes, attribute names
    and sub-fields, [makeAttrField] yields the same field name only for the
    same attribute name, the same scope and the same sub-fields. *)
Theorem makeAttrField_injective (name1 scope1 name2 scope2 : string)
  (subs1 subs2 : list string) :
  free_of "-"%char scope1 → free_of "-"%char scope2 →
  free_of "."%char scope1 → free_of "."%char scope2 →
  free_of "."%char name1 → free_of "."%char name2 →
  Forall (free_of "."%char) subs1 → Forall (free_of "."%char) subs2 →
  makeAttrFieldName name1 scope1 subs1 = makeAttrFieldName name2 scope2 subs2 →
  name1 = name2 ∧ scope1 = scope2 ∧ subs1 = subs2.
Proof.
  intros Hd1 Hd2 Hs1 Hs2 Hn1 Hn2 Hsub1 Hsub2 Heq.
  apply (f_equal fields) in Heq.
  rewrite !fields_makeAttrFieldName in Heq by done.
  by apply makeAttrField_path_inj in Heq.
Qed.

Lemma free_of_dash_inventory : free_of "-"%char "inventory".
Proof. cbn; repeat split; discriminate. Defined.

Lemma free_of_dot_inventory : free_of "."%char "inventory".
Proof. cbn; repeat split; discriminate. Defined.

Lemma free_of_dot_sn : free_of "."%char "sn".
Proof. cbn; repeat split; discriminate. Defined.

Lemma free_of_dot_value : Forall (free_of "."%char) [DbDevAttributesValue].
Proof. repeat constructor; discriminate. Defined.

Lemma free_of_dot_name : Forall (free_of "."%char) [DbDevAttributesName].
Proof. repeat constructor; discriminate. Defined.

Lemma makeAttrField_injective_witness :
  ("sn" = "sn" ∧ "inventory" = "inventory"
   ∧ [DbDevAttributesValue] = [DbDevAttributesValue])
  ∧ makeAttrFieldName "sn" "inventory" [DbDevAttributesValue]
    ≠ makeAttrFieldName "sn" "inventory" [DbDevAttributesName].
Proof.
  split.
  - exact (makeAttrField_injective "sn" "inventory" "sn" "inventory"
      [DbDevAttributesValue] [DbDevAttributesValue]
      free_of_dash_inventory free_of_dash_inventory
      free_of_dot_inventory free_of_dot_inventory
      free_of_dot_sn free_of_dot_sn
      free_of_dot_value free_of_dot_value eq_refl).
  - intros Heq.
    pose proof (makeAttrField_injective "sn" "inventory" "sn" "inventory"
      [DbDevAttributesValue] [DbDevAttributesName]
      free_of_dash_inventory free_of_dash_inventory
      free_of_dot_inventory free_of_dot_inventory
      free_of_dot_sn free_of_dot_sn
      free_of_dot_value free_of_dot_name Heq) as (_ & _ & Hsubs).
    discriminate Hsubs.
Defined.

(** With a dash in the scope, or a dot in the name, two different
    attribute fields can share a field name. *)
Example makeAttrField_collision :
  makeAttrFieldName "c" "a-b" [] = makeAttrFieldName "b-c" "a" []
  ∧ makeAttrFieldName "sn.value" "inventory" []
    = makeAttrFieldName "sn" "inventory" [DbDevAttributesValue].
Proof. split; reflexivity. Qed.

(** X30. The dotted field names denote the paths of the model: when
    scope, attribute name and sub-fields hold no dot, the field name that
    [makeAttrField] composes is read by the document store as the path
    [attributes], then the key [scope-name], then the sub-fields. *)
Theorem makeAttrField_path (name scope : string) (subs : list string) :
  free_of "."%char scope → free_of "."%char name →
  Forall (free_of "."%char) subs →
  fields (makeAttrFieldName name scope subs) = makeAttrField name scope subs
  ∧ makeAttrField name scope subs
    = ([DbDevAttributes; scope +:+ "-" +:+ name] ++ subs)%list.
Proof.
  intros Hs Hn Hsubs. split; [by apply fields_makeAttrFieldName|done].
Qed.

Lemma makeAttrField_path_witness :
  fields (makeAttrFieldName "sn" "inventory" [DbDevAttributesValue])
  = [DbDevAttributes; "inventory-sn"; DbDevAttributesValue].
Proof.
  destruct (makeAttrField_path "sn" "inventory" [DbDevAttributesValue]
              free_of_dot_inventory free_of_dot_sn free_of_dot_value)
    as [Hread Hpath].
  exact (eq_trans Hread Hpath).
Defined.

(** The constants of the group attribute, as the source composes them,
    denote the paths of the model. *)
Example group_field_paths :
  fields (DbDevAttributes +:+ "." +:+ AttrScopeSystem +:+ "-"
          +:+ AttrNameGroup) = DbDevAttributesGroup
  ∧ fields ((DbDevAttributes +:+ "." +:+ AttrScopeSystem +:+ "-"
             +:+ AttrNameGroup) +:+ "." +:+ DbDevAttributesValue)
    = DbDevAttributesGroupValue.
Proof. split; reflexivity. Qed.

End key_properties.

(** ** Properties of opening the store and of index provisioning *)

Section connection_properties.
Import Mongo DataStoreMongo Spec Sample Connection.

(** X29. The first call decides: whatever the driver does and whatever
    the state of the package variables, every call of [NewDataStoreMongo]
    after a first one returns what the first one returned and leaves the
    package variables as the first one left them, whatever configuration it
    is given; a failed first initialisation is not retried. *)
Theorem NewDataStoreMongo_first_call_decides (Client : Type)
  (Connect : ClientOptions → option Client * option Error)
  (Ping : Client → option Error)
  (g : Globals Client) (first later : DataStoreMongoConfig) :
  NewDataStoreMongo Client Connect Ping
    (NewDataStoreMongo Client Connect Ping g first).2 later
  = NewDataStoreMongo Client Connect Ping g first.
Proof.
  unfold NewDataStoreMongo.
  destruct (once_done Client g) eqn:Hdone.
  - destruct (clientGlobal Client g) eqn:Hc; cbn [snd]; by rewrite Hdone, Hc.
  - destruct (connectOnce Client Connect Ping first) eqn:Hc;
      cbn [snd clientGlobal once_done]; by rewrite ?Hc.
Qed.

(** The URI handed to the driver always carries a scheme: a
    connection string without [://] is prefixed with [mongodb://], one with
    a scheme is passed on as it is. *)
Theorem clientOptions_scheme (config : DataStoreMongoConfig) :
  Contains (URI (clientOptions config)) "://" = true
  ∧ (Contains (ConnectionString config) "://" = true →
     URI (clientOptions config) = ConnectionString config)
  ∧ (Contains (ConnectionString config) "://" = false →
     URI (clientOptions config) = "mongodb://" +:+ ConnectionString config).
Proof.
  unfold clientOptions. cbn [URI].
  destruct (Contains (ConnectionString config) "://") eqn:E; cbn [negb].
  - done.
  - split; [|done]. clear E.
    destruct (ConnectionString config); vm_compute; reflexivity.
Qed.

End connection_properties.
